(** * photo-processor: face-position guidance and size-targeting compression

    A shallow embedding of the two numeric procedures of the app:

    - [FaceDetectionWeb.calculateGuidance] and [FaceDetectionWeb.detectFace]
      (the web implementation of the face-detection plugin), and
    - [ImageProcessingService.compressImage]
      (src/app/services/image-processing.service.ts),

    and of the code around them: the plugin's [initialize] and [dispose], the
    guidance calculator of the iOS and Android plugins, the crop geometry and
    [formatFileSize] of the home page, the elliptical mask of the web
    background removal and the data-URL handling of the native plugins.

    Numbers.  The guidance calculator of the web plugin compares sums,
    differences, products and quotients of its arguments with each other and
    with constants, and what it answers depends on how each of them is
    rounded.  The numbers of the face-detection plugin are therefore the
    binary64 numbers of the JavaScript engine ([PrimFloat]): every operation
    rounds to nearest, ties to even, and there are two zeros, two infinities
    and NaN.  A decimal literal of the source is the binary64 number nearest
    to it.  Facts about these numbers are derived from the specification of
    the primitive operations in [FloatAxioms].

    The compressor only halves quality ranges and compares byte counts, which
    are integers; its numbers, and those of the page geometry, are exact
    rationals.

    Calls to the platform (image decoding, canvas encoding, the BlazeFace
    model) are modelled by their outcomes: a record of the platform gives,
    for each awaited call, the value it resolves with or the error it rejects
    with. *)

From Stdlib Require Import String.
From Stdlib Require Import Floats.
From Stdlib Require Import NArith ZArith QArith Qround Lqa Lia List Bool.
From Stdlib Require Import Ascii DecimalString.
Import ListNotations.
Open Scope Q_scope.

#[local] Set Warnings "-inexact-float".

(** ** Exact numbers *)

Module JSNumber.

Inductive jsnum : Type :=
| Finite (q : Q)
| PosInfinity
| NegInfinity
| NaN.

(** [a < b] on finite numbers, as a boolean. *)
Definition Qltb (a b : Q) : bool := negb (Qle_bool b a).

(** [a / b]: a zero divisor gives NaN for [0 / 0] and otherwise the infinity
    of the sign of [a] (the zero is taken as [+0]). *)
Definition div (a b : Q) : jsnum :=
  if Qeq_bool b 0 then
    if Qeq_bool a 0 then NaN
    else if Qltb 0 a then PosInfinity else NegInfinity
  else Finite (a / b).

(** [r < c] and [r > c] for a finite [c]; every comparison with NaN is false. *)
Definition lt (r : jsnum) (c : Q) : bool :=
  match r with
  | Finite q => Qltb q c
  | NegInfinity => true
  | PosInfinity | NaN => false
  end.

Definition gt (r : jsnum) (c : Q) : bool :=
  match r with
  | Finite q => Qltb c q
  | PosInfinity => true
  | NegInfinity | NaN => false
  end.

(** [Math.max] and [Math.abs] on finite numbers. *)
Definition max (a b : Q) : Q := if Qltb a b then b else a.
Definition abs (a : Q) : Q := if Qltb a 0 then - a else a.

End JSNumber.

(** ** Binary64 numbers *)

Module Binary64.

#[local] Open Scope float_scope.

(** A positive integer as a number; exact below 2^53. *)
Fixpoint ofPos (p : positive) : float :=
  match p with
  | xH => 1
  | xO p' => 2 * ofPos p'
  | xI p' => 2 * ofPos p' + 1
  end.

(** [Math.max] of two numbers: NaN if either is, and [+0] above [-0]. *)
Definition max (a b : float) : float :=
  if is_nan a || is_nan b then nan
  else if a =? b then (if is_zero a then a + b else a)
  else if a <? b then b else a.

(** [Array.prototype.sort] with a comparator.  The sort is stable and an
    element moves in front of another only when the comparator, called on the
    pair, is negative (a NaN counts as [+0]): insertion from the left, each
    new element placed before the first one it compares below.  The language
    fixes the sorted order for a consistent comparator only; a difference of
    values is one as long as no value is NaN. *)
Section Sort.
Context {T : Type} (comparefn : T -> T -> float).

Fixpoint insert (p : T) (sorted : list T) : list T :=
  match sorted with
  | [] => [p]
  | e :: rest =>
      if comparefn p e <? 0 then p :: sorted else e :: insert p rest
  end.

Definition sort (arr : list T) : list T :=
  fold_left (fun sorted p => insert p sorted) arr [].
End Sort.

(** The value of a number in units of the smallest positive one, [2^-1074]:
    an integer.  The infinities are given the first power of two above every
    finite value. *)
Definition scaled (x : spec_float) : Z :=
  match x with
  | S754_zero _ | S754_nan => 0
  | S754_infinity s => cond_Zopp s (2 ^ 2098)
  | S754_finite s m e => cond_Zopp s (Zpos m * 2 ^ (e + 1074))
  end.

(** A number that is zero or finite, of magnitude at most [2^k]. *)
Definition small (k : Z) (x : spec_float) : Prop :=
  match x with
  | S754_zero _ => True
  | S754_finite _ m e => (Zpos m * 2 ^ (e + 1074) <= 2 ^ (k + 1074))%Z
  | _ => False
  end.

(** A number of magnitude at most [2^900]. *)
Definition moderate (a : float) : Prop := (abs a <=? 0x1p900) = true.

End Binary64.

(** ** Promises

    An awaited call either resolves with a value or rejects with an error;
    an [async] function returns such an outcome to its caller. *)

Module JSPromise.

Inductive JSError : Type :=
| TypeError
| Error (message : string)
| ErrorEvent.

Inductive Promise (A : Type) : Type :=
| Resolved (a : A)
| Rejected (e : JSError).
Arguments Resolved {A} a.
Arguments Rejected {A} e.

(** [await p; k]: a rejection is thrown past the continuation. *)
Definition await {A B : Type} (p : Promise A) (k : A -> Promise B) : Promise B :=
  match p with
  | Resolved a => k a
  | Rejected e => Rejected e
  end.

(** [try { body } catch (error) { handler }]. *)
Definition tryCatch {A : Type} (body : Promise A) (handler : JSError -> Promise A)
  : Promise A :=
  match body with
  | Resolved a => Resolved a
  | Rejected e => handler e
  end.

Notation "'let!' a ':=' p 'in' k" := (await p (fun a => k))
  (at level 10, a name, p at level 100, k at level 200).

(** A decoded image; a loaded image has positive pixel dimensions. *)
Record HTMLImageElement : Type := {
  img_width : positive;
  img_height : positive
}.

End JSPromise.

(** ** The face-detection plugin (web implementation) *)

Module FaceDetection.

Import JSPromise.

Inductive FaceGuidance : Type :=
| no_face
| move_closer
| move_back
| move_left
| move_right
| move_up
| move_down
| hold_still
| multiple_faces.

Record FaceBounds : Type := {
  x : float;
  y : float;
  width : float;
  height : float
}.

Record OvalBounds : Type := {
  centerX : float;
  centerY : float;
  radiusX : float;
  radiusY : float
}.

Record FaceDetectionResult : Type := {
  faceDetected : bool;
  bounds : option FaceBounds;
  guidance : FaceGuidance;
  confidence : option float
}.

(** An entry of the [overflows] array: [{ value, guidance }]. *)
Module Overflow.
Record t : Type := { value : float; guidance : FaceGuidance }.
End Overflow.

Section Guidance.
Variable face : FaceBounds.
Variable oval : OvalBounds.

#[local] Open Scope float_scope.

Definition headPaddingTop : float := height face * 0.40.
Definition headPaddingBottom : float := height face * 0.08.
Definition headPaddingSide : float := width face * 0.10.

Definition faceLeft : float := x face - headPaddingSide.
Definition faceRight : float := x face + width face + headPaddingSide.
Definition faceTop : float := y face - headPaddingTop.
Definition faceBottom : float := y face + height face + headPaddingBottom.

Definition faceCenterX : float := (faceLeft + faceRight) / 2.
Definition faceCenterY : float := (faceTop + faceBottom) / 2.

Definition ovalLeft : float := centerX oval - radiusX oval.
Definition ovalRight : float := centerX oval + radiusX oval.
Definition ovalTop : float := centerY oval - radiusY oval.
Definition ovalBottom : float := centerY oval + radiusY oval.

Definition headWidth : float := faceRight - faceLeft.
Definition headHeight : float := faceBottom - faceTop.
Definition headSize : float := Binary64.max headWidth headHeight.
Definition ovalSize : float := Binary64.max (radiusX oval * 2) (radiusY oval * 2).
Definition sizeRatio : float := headSize / ovalSize.

Definition leftOverflow : float := ovalLeft - faceLeft.
Definition rightOverflow : float := faceRight - ovalRight.
Definition topOverflow : float := ovalTop - faceTop.
Definition bottomOverflow : float := faceBottom - ovalBottom.

Definition overflows : list Overflow.t :=
  [ {| Overflow.value := leftOverflow; Overflow.guidance := move_right |};
    {| Overflow.value := rightOverflow; Overflow.guidance := move_left |};
    {| Overflow.value := topOverflow; Overflow.guidance := move_down |};
    {| Overflow.value := bottomOverflow; Overflow.guidance := move_up |} ].

(** The comparator of [overflows.sort((a, b) => b.value - a.value)]. *)
Definition byValueDescending (a b : Overflow.t) : float :=
  Overflow.value b - Overflow.value a.

Definition sortedOverflows : list Overflow.t :=
  Binary64.sort byValueDescending overflows.

(** [overflows[0]] after the sort; the array has four entries, so the
    default of [hd] is never used (see [sortedOverflows_length]). *)
Definition largestOverflow : Overflow.t :=
  hd {| Overflow.value := leftOverflow; Overflow.guidance := move_right |}
     sortedOverflows.

Definition centerThreshold : float := 0.15.
Definition xOffset : float := abs (faceCenterX - centerX oval).
Definition yOffset : float := abs (faceCenterY - centerY oval).

Definition calculateGuidance : FaceGuidance :=
  if sizeRatio <? 0.8 then move_closer
  else if 1.15 <? sizeRatio then move_back
  else if 0 <? Overflow.value largestOverflow then
    Overflow.guidance largestOverflow
  else if (centerThreshold <? xOffset) || (centerThreshold <? yOffset) then
    if xOffset <? yOffset then
      (if faceCenterY <? centerY oval then move_down else move_up)
    else
      (if faceCenterX <? centerX oval then move_right else move_left)
  else hold_still.
End Guidance.

(** *** [detectFace] and [initialize]

    The calls the plugin awaits (script loading, [blazeface.load],
    [Image] decoding, [model.estimateFaces]) are outcomes supplied by the
    platform. *)

(** One BlazeFace prediction ([returnTensors = false]). *)
Record Prediction : Type := {
  topLeft : float * float;
  bottomRight : float * float;
  probability : option float
}.

(** The argument of [detectFace] as the plugin interface declares it. *)
Record DetectFaceOptions : Type := {
  imageData : string;
  ovalBounds : OvalBounds;
  sensitivity : option float
}.

Section Plugin.
(** A loaded BlazeFace model. *)
Variable Model : Type.

(** The fields of [FaceDetectionWeb]. *)
Record FaceDetectionWeb : Type := {
  model : option Model;
  isInitializing : bool;
  scriptsLoaded : bool
}.

Record Platform : Type := {
  (** [typeof tf !== 'undefined' && typeof blazeface !== 'undefined'] *)
  globalsDefined : bool;
  (** [loadScript(src)] *)
  loadScript : string -> Promise unit;
  (** [blazeface.load()] *)
  blazefaceLoad : Promise Model;
  (** the plugin once [waitForModel] has finished polling *)
  waitForModel : FaceDetectionWeb -> FaceDetectionWeb;
  (** [loadImage(dataUrl)] *)
  loadImage : string -> Promise HTMLImageElement;
  (** [model.estimateFaces(img, false)]; [None] is a null result *)
  estimateFaces : Model -> HTMLImageElement -> Promise (option (list Prediction))
}.

Variable platform : Platform.

Definition tfjsUrl : string :=
  "https://cdn.jsdelivr.net/npm/@tensorflow/tfjs@4.17.0/dist/tf.min.js".
Definition blazefaceUrl : string :=
  "https://cdn.jsdelivr.net/npm/@tensorflow-models/blazeface@0.0.7/dist/blazeface.js".

Definition setScriptsLoaded (this : FaceDetectionWeb) : FaceDetectionWeb :=
  {| model := model this; isInitializing := isInitializing this;
     scriptsLoaded := true |}.

Definition loadScripts (this : FaceDetectionWeb)
  : FaceDetectionWeb * Promise unit :=
  if scriptsLoaded this then (this, Resolved tt)
  else if globalsDefined platform then (setScriptsLoaded this, Resolved tt)
  else
    match loadScript platform tfjsUrl with
    | Rejected e => (this, Rejected e)
    | Resolved _ =>
        match loadScript platform blazefaceUrl with
        | Rejected e => (this, Rejected e)
        | Resolved _ => (setScriptsLoaded this, Resolved tt)
        end
    end.

(** [initialize()]: resolves with [{ success }]. *)
Definition initialize (this : FaceDetectionWeb)
  : FaceDetectionWeb * Promise bool :=
  match model this with
  | Some _ => (this, Resolved true)
  | None =>
      if isInitializing this then
        let this' := waitForModel platform this in
        (this', Resolved (match model this' with Some _ => true | None => false end))
      else
        let this1 := {| model := None; isInitializing := true;
                        scriptsLoaded := scriptsLoaded this |} in
        let (this2, scripts) := loadScripts this1 in
        match (let! _ := scripts in blazefaceLoad platform) with
        | Resolved m =>
            ({| model := Some m; isInitializing := false;
                scriptsLoaded := scriptsLoaded this2 |}, Resolved true)
        | Rejected _ =>
            ({| model := model this2; isInitializing := false;
                scriptsLoaded := scriptsLoaded this2 |}, Resolved false)
        end
  end.

Definition noFace : FaceDetectionResult :=
  {| faceDetected := false; bounds := None; guidance := no_face;
     confidence := None |}.

Definition multipleFaces : FaceDetectionResult :=
  {| faceDetected := true; bounds := None; guidance := multiple_faces;
     confidence := None |}.

(** [??] with the default [0.9]. *)
Definition orDefault (p : option float) : float :=
  match p with Some c => c | None => 0.9%float end.

(** The body of the [try] block of [detectFace]. *)
Definition detect (this : FaceDetectionWeb) (options : DetectFaceOptions)
  : Promise FaceDetectionResult :=
  let! img := loadImage platform (imageData options) in
  let! predictions :=
    match model this with
    | Some m => estimateFaces platform m img
    | None => Rejected TypeError
    end in
  match predictions with
  | None | Some [] => Resolved noFace
  | Some (_ :: _ :: _) => Resolved multipleFaces
  | Some [prediction] =>
      let w := Binary64.ofPos (img_width img) in
      let h := Binary64.ofPos (img_height img) in
      let b := {| x := fst (topLeft prediction) / w;
                  y := snd (topLeft prediction) / h;
                  width := (fst (bottomRight prediction) - fst (topLeft prediction)) / w;
                  height := (snd (bottomRight prediction) - snd (topLeft prediction)) / h |}%float in
      Resolved {| faceDetected := true;
                  bounds := Some b;
                  guidance := calculateGuidance b (ovalBounds options);
                  confidence := Some (orDefault (probability prediction)) |}
  end.

Definition detectFace (this : FaceDetectionWeb) (options : DetectFaceOptions)
  : FaceDetectionWeb * Promise FaceDetectionResult :=
  let attempt (this' : FaceDetectionWeb) :=
    (this', tryCatch (detect this' options) (fun _ => Resolved noFace)) in
  match model this with
  | Some _ => attempt this
  | None =>
      let (this', initResult) := initialize this in
      match initResult with
      | Rejected e => (this', Rejected e)
      | Resolved false => (this', Resolved noFace)
      | Resolved true => attempt this'
      end
  end.
End Plugin.

Arguments model {Model} _.
Arguments isInitializing {Model} _.
Arguments scriptsLoaded {Model} _.
Arguments globalsDefined {Model} _.
Arguments loadScript {Model} _ _.
Arguments blazefaceLoad {Model} _.
Arguments waitForModel {Model} _ _.
Arguments loadImage {Model} _ _.
Arguments estimateFaces {Model} _ _ _.
Arguments setScriptsLoaded {Model} this.
Arguments loadScripts {Model} platform this.
Arguments initialize {Model} platform this.
Arguments detect {Model} platform this options.
Arguments detectFace {Model} platform this options.

End FaceDetection.

(** ** The image-processing service: [compressImage] *)

Module ImageProcessing.

Import JSNumber JSPromise.

Section Compressor.
(** An encoded image; [blobSize] is [blob.size], a byte count. *)
Variable Blob : Type.
Variable blobSize : Blob -> N.

Record ProcessedImage : Type := {
  dataUrl : string;
  blob : Blob;
  size : N
}.

Record Platform : Type := {
  (** [loadImage(dataUrl)] *)
  loadImage : string -> Promise HTMLImageElement;
  (** [canvas.getContext('2d')] is not null *)
  context2d : bool;
  (** [canvasToBlob(canvas, quality)], the canvas holding the drawn image *)
  canvasToBlob : HTMLImageElement -> Q -> Promise Blob;
  (** [blobToDataUrl(blob)] *)
  blobToDataUrl : Blob -> Promise string
}.

(** The variables of the binary search. *)
Record Search : Type := {
  minQuality : Q;
  maxQuality : Q;
  quality : Q;
  bestBlob : option Blob
}.

Definition initialSearch : Search :=
  {| minQuality := 0.10; maxQuality := 0.95; quality := 0.70; bestBlob := None |}.

Definition tolerance : Q := 1024.

Definition bytes (b : Blob) : Q := inject_Z (Z.of_N (blobSize b)).

(** [Math.abs(blob.size - targetBytes)] *)
Definition distance (targetBytes : Q) (b : Blob) : Q := abs (bytes b - targetBytes).

(** How one pass through the loop body ends. *)
Inductive Completion : Type :=
| Continue (s : Search)
| Break (s : Search)
| Throw (e : JSError).

Section Loop.
(** The encoder for the canvas at hand, and the target. *)
Variable encode : Q -> Promise Blob.
Variable targetBytes : Q.

Definition setBest (s : Search) (b : Blob) : Search :=
  {| minQuality := minQuality s; maxQuality := maxQuality s;
     quality := quality s; bestBlob := Some b |}.

Definition keepBest (s : Search) (b : Blob) : Search :=
  match bestBlob s with
  | None => setBest s b
  | Some best =>
      if Qltb (distance targetBytes b) (distance targetBytes best)
      then setBest s b else s
  end.

Definition adjust (s : Search) (b : Blob) : Search :=
  if Qltb targetBytes (bytes b) then
    {| minQuality := minQuality s; maxQuality := quality s;
       quality := (minQuality s + quality s) / 2; bestBlob := bestBlob s |}
  else
    {| minQuality := quality s; maxQuality := maxQuality s;
       quality := (maxQuality s + quality s) / 2; bestBlob := bestBlob s |}.

(** The body of the [for] loop. *)
Definition iteration (s : Search) : Completion :=
  match encode (quality s) with
  | Rejected e => Throw e
  | Resolved b =>
      if Qltb (distance targetBytes b) tolerance then Break (setBest s b)
      else Continue (adjust (keepBest s b) b)
  end.

(** [for (let i = 0; i < n; i++) { ... }] with [remaining = n - i]; the
    second component lists the encoder calls made, in order, each with the
    quality passed and the outcome. *)
Fixpoint forLoop (remaining : nat) (s : Search)
  : (Search + JSError) * list (Q * Promise Blob) :=
  match remaining with
  | O => (inl s, [])
  | S remaining' =>
      let call := (quality s, encode (quality s)) in
      match iteration s with
      | Throw e => (inr e, [call])
      | Break s' => (inl s', [call])
      | Continue s' =>
          let (outcome, calls) := forLoop remaining' s' in
          (outcome, call :: calls)
      end
  end.
End Loop.

Variable platform : Platform.

(** [targetSizeKB: number = 10] *)
Definition orTen (targetSizeKB : option Q) : Q :=
  match targetSizeKB with Some kb => kb | None => 10 end.

(** The code after the loop. *)
Definition returnBest (s : Search) : Promise ProcessedImage :=
  match bestBlob s with
  | None => Rejected (Error "Failed to compress image")
  | Some best =>
      let! bestDataUrl := blobToDataUrl platform best in
      Resolved {| dataUrl := bestDataUrl; blob := best; size := blobSize best |}
  end.

(** [compressImage] with the loop bound as a parameter. *)
Definition compressImageWithin (iterations : nat)
    (url : string) (targetSizeKB : option Q)
  : Promise ProcessedImage * list (Q * Promise Blob) :=
  match loadImage platform url with
  | Rejected e => (Rejected e, [])
  | Resolved img =>
      if negb (context2d platform) then
        (Rejected (Error "Could not get canvas context"), [])
      else
        let targetBytes := orTen targetSizeKB * 1024 in
        match forLoop (canvasToBlob platform img) targetBytes iterations initialSearch with
        | (inr e, calls) => (Rejected e, calls)
        | (inl s, calls) => (returnBest s, calls)
        end
  end.

Definition compressImage := compressImageWithin 8.
End Compressor.

Arguments dataUrl {Blob} _.
Arguments blob {Blob} _.
Arguments size {Blob} _.
Arguments loadImage {Blob} _ _.
Arguments context2d {Blob} _.
Arguments canvasToBlob {Blob} _ _ _.
Arguments blobToDataUrl {Blob} _ _.
Arguments minQuality {Blob} _.
Arguments maxQuality {Blob} _.
Arguments quality {Blob} _.
Arguments bestBlob {Blob} _.
Arguments initialSearch {Blob}.
Arguments bytes {Blob} blobSize b.
Arguments distance {Blob} blobSize targetBytes b.
Arguments Continue {Blob} s.
Arguments Break {Blob} s.
Arguments Throw {Blob} e.
Arguments setBest {Blob} s b.
Arguments keepBest {Blob} blobSize targetBytes s b.
Arguments adjust {Blob} blobSize targetBytes s b.
Arguments iteration {Blob} blobSize encode targetBytes s.
Arguments forLoop {Blob} blobSize encode targetBytes remaining s.
Arguments returnBest {Blob} blobSize platform s.
Arguments compressImageWithin {Blob} blobSize platform iterations url targetSizeKB.
Arguments compressImage {Blob} blobSize platform url targetSizeKB.

End ImageProcessing.

(** ** Specification-side notions for the guidance calculator

    The padded head box, the oval's bounding rectangle, the overflow beyond
    an edge and the size ratio, written out from the face rectangle and the
    oval.  They are binary64 numbers, computed by the operations that their
    definitions name: the guidance depends on the rounded values. *)

Module GuidanceSpec.

Import FaceDetection.

#[local] Open Scope float_scope.

(** The four edges of the oval's bounding rectangle, in the listed order. *)
Inductive Edge : Type := LeftEdge | RightEdge | TopEdge | BottomEdge.

Definition listed (e : Edge) : nat :=
  match e with
  | LeftEdge => 0
  | RightEdge => 1
  | TopEdge => 2
  | BottomEdge => 3
  end.

(** A box with sides parallel to the axes; [top] is the smaller ordinate. *)
Record Box : Type := {
  left : float;
  right : float;
  top : float;
  bottom : float
}.

(** The head around a face rectangle: a tenth of its width more on either
    side, four tenths of its height more above and eight hundredths below. *)
Definition paddedHead (f : FaceBounds) : Box :=
  {| left := x f - width f * 0.10;
     right := x f + width f + width f * 0.10;
     top := y f - height f * 0.40;
     bottom := y f + height f + height f * 0.08 |}.

Definition boundingRectangle (o : OvalBounds) : Box :=
  {| left := centerX o - radiusX o;
     right := centerX o + radiusX o;
     top := centerY o - radiusY o;
     bottom := centerY o + radiusY o |}.

(** How far the padded head box reaches beyond an edge of the oval's
    bounding rectangle. *)
Definition overflow (f : FaceBounds) (o : OvalBounds) (e : Edge) : float :=
  match e with
  | LeftEdge => left (boundingRectangle o) - left (paddedHead f)
  | RightEdge => right (paddedHead f) - right (boundingRectangle o)
  | TopEdge => top (boundingRectangle o) - top (paddedHead f)
  | BottomEdge => bottom (paddedHead f) - bottom (boundingRectangle o)
  end.

(** The move that brings the head back from beyond an edge. *)
Definition awayFrom (e : Edge) : FaceGuidance :=
  match e with
  | LeftEdge => move_right
  | RightEdge => move_left
  | TopEdge => move_down
  | BottomEdge => move_up
  end.

(** The larger side of the padded head over the larger diameter of the
    oval. *)
Definition paddedWidth (f : FaceBounds) : float :=
  right (paddedHead f) - left (paddedHead f).
Definition paddedHeight (f : FaceBounds) : float :=
  bottom (paddedHead f) - top (paddedHead f).
Definition ratio (f : FaceBounds) (o : OvalBounds) : float :=
  Binary64.max (paddedWidth f) (paddedHeight f)
  / Binary64.max (radiusX o * 2) (radiusY o * 2).

(** The ratio is neither below 0.8 nor above 1.15. *)
Definition withinBand (f : FaceBounds) (o : OvalBounds) : Prop :=
  (ratio f o <? 0.8) = false /\ (1.15 <? ratio f o) = false.

(** No overflow is above that of [e], and those of the edges listed before
    [e] are below it. *)
Definition largestFirst (f : FaceBounds) (o : OvalBounds) (e : Edge) : Prop :=
  forall e',
    (overflow f o e <? overflow f o e') = false /\
    ((listed e' < listed e)%nat -> (overflow f o e' <? overflow f o e) = true).

(** The four overflows are numbers.  The differences that the sort compares
    are then negative, zero or positive as the overflows are ordered, and
    the language fixes the sorted order. *)
Definition comparable (f : FaceBounds) (o : OvalBounds) : Prop :=
  forall e, is_nan (overflow f o e) = false.

(** The coordinates of the face rectangle and of the oval are of moderate
    magnitude, as those of a frame are: normalised coordinates lie in the
    unit range, or near it for a box that leaves the image. *)
Definition moderateFrame (f : FaceBounds) (o : OvalBounds) : Prop :=
  (Binary64.moderate (x f) /\ Binary64.moderate (width f)) /\
  (Binary64.moderate (y f) /\ Binary64.moderate (height f)) /\
  (Binary64.moderate (centerX o) /\ Binary64.moderate (radiusX o)) /\
  (Binary64.moderate (centerY o) /\ Binary64.moderate (radiusY o)).

(** The centre of the padded head box, its distance from the oval's centre
    along each axis, and the centre of the face rectangle itself. *)
Definition headCenterX (f : FaceBounds) : float :=
  (left (paddedHead f) + right (paddedHead f)) / 2.
Definition headCenterY (f : FaceBounds) : float :=
  (top (paddedHead f) + bottom (paddedHead f)) / 2.
Definition offCentreX (f : FaceBounds) (o : OvalBounds) : float :=
  abs (headCenterX f - centerX o).
Definition offCentreY (f : FaceBounds) (o : OvalBounds) : float :=
  abs (headCenterY f - centerY o).

(** The entry kept when [p] is inserted in front of a sorted array whose
    first entry is [best]. *)
Definition pick (best p : Overflow.t) : Overflow.t :=
  if byValueDescending p best <? 0 then p else best.

(** Concrete frames, all against an oval of radius 0.3 (or 0.35). *)
Definition ovalMid : OvalBounds :=
  {| centerX := 0.5; centerY := 0.5; radiusX := 0.3; radiusY := 0.3 |}.

(** A face rectangle centred on [ovalMid]; its hair padding passes the top. *)
Definition faceMid : FaceBounds :=
  {| x := 0.3; y := 0.3; width := 0.4; height := 0.4 |}.

(** A small face to the left of [ovalMid]. *)
Definition faceSmallLeft : FaceBounds :=
  {| x := 0.0; y := 0.4; width := 0.1; height := 0.1 |}.

(** A face past the left edge of [ovalMid] and, farther, past its top. *)
Definition faceHighLeft : FaceBounds :=
  {| x := 0.2; y := 0.1; width := 0.4; height := 0.4 |}.


(** A padded head centred on [ovalTall] and 5.7% taller than it. *)
Definition faceTall : FaceBounds :=
  {| x := 0.3; y := 0.2; width := 0.4; height := 0.5 |}.
Definition ovalTall : OvalBounds :=
  {| centerX := 0.5; centerY := 0.37; radiusX := 0.35; radiusY := 0.35 |}.

(** A larger oval around the same centre: it contains the padded head of
    [faceTall]. *)
Definition ovalWide : OvalBounds :=
  {| centerX := 0.5; centerY := 0.37; radiusX := 0.4; radiusY := 0.4 |}.

(** The oval of the home page. *)
Definition ovalPage : OvalBounds :=
  {| centerX := 0.50; centerY := 0.50; radiusX := 0.32; radiusY := 0.42 |}.

(** A face whose padded head passes the left and the right edge of its oval
    by a twentieth each in exact arithmetic; the computed overflows differ in
    the last place. *)
Definition faceBetween : FaceBounds :=
  {| x := 0.375; y := 0.625; width := 0.5; height := 0.625 |}.
Definition ovalBetween : OvalBounds :=
  {| centerX := 0.625; centerY := 0.875; radiusX := 0.25; radiusY := 0.5 |}.

(** The pixel box (149, 158) - (491, 398) of a 640 x 480 frame: its padded
    head passes the right edge of [ovalPage] by more than the left edge in
    exact arithmetic; the computed overflows are equal. *)
Definition facePixels : FaceBounds :=
  {| x := 149 / 640; y := 158 / 480;
     width := (491 - 149) / 640; height := (398 - 158) / 480 |}.

End GuidanceSpec.

(** ** Specification-side notions for [detectFace] *)

Module DetectSpec.

Import JSPromise FaceDetection.

Section Failure.
Context {Model : Type}.
Variable platform : Platform Model.
Variable this : FaceDetectionWeb Model.
Variable options : DetectFaceOptions.

(** The plugin when the [try] block of [detectFace] is entered. *)
Definition afterInitialize : FaceDetectionWeb Model :=
  match model this with
  | Some _ => this
  | None => fst (initialize platform this)
  end.

(** The ways face detection fails. *)
Inductive DetectionFails : Prop :=
| InitializationFails :
    model this = None ->
    snd (initialize platform this) = Resolved false ->
    DetectionFails
| ModelUnavailable :
    model afterInitialize = None ->
    DetectionFails
| ImageFails (e : JSError) :
    loadImage platform (imageData options) = Rejected e ->
    DetectionFails
| EstimateFails (m : Model) (img : HTMLImageElement) (e : JSError) :
    model afterInitialize = Some m ->
    loadImage platform (imageData options) = Resolved img ->
    estimateFaces platform m img = Rejected e ->
    DetectionFails.
End Failure.

(** A plugin that has not been initialised. *)
Definition freshPlugin : FaceDetectionWeb unit :=
  {| model := None; isInitializing := false; scriptsLoaded := false |}.

(** No network: the scripts cannot be loaded. *)
Definition offline : Platform unit :=
  {| globalsDefined := false;
     loadScript := fun src => Rejected (Error "Failed to load script");
     blazefaceLoad := Rejected TypeError;
     waitForModel := fun this => this;
     loadImage := fun _ => Rejected ErrorEvent;
     estimateFaces := fun _ _ => Rejected TypeError |}.

(** The model loads and the frame decodes, but the estimation throws. *)
Definition faultyModel : Platform unit :=
  {| globalsDefined := true;
     loadScript := fun src => Resolved tt;
     blazefaceLoad := Resolved tt;
     waitForModel := fun this => this;
     loadImage := fun _ => Resolved {| img_width := 640; img_height := 480 |};
     estimateFaces := fun _ _ => Rejected (Error "estimateFaces failed") |}.

(** A platform that sees one face, the pixel box of [faceMid] in a
    640 x 480 frame. *)
Definition oneFace : Platform unit :=
  {| globalsDefined := true;
     loadScript := fun src => Resolved tt;
     blazefaceLoad := Resolved tt;
     waitForModel := fun this => this;
     loadImage := fun _ => Resolved {| img_width := 640; img_height := 480 |};
     estimateFaces := fun _ _ =>
       Resolved (Some [ {| topLeft := (192, 144)%float;
                           bottomRight := (448, 336)%float;
                           probability := Some 0.97%float |} ]) |}.

Definition frame (s : option float) : DetectFaceOptions :=
  {| imageData := "data:image/jpeg;base64,"; ovalBounds := GuidanceSpec.ovalMid;
     sensitivity := s |}.

End DetectSpec.

(** ** Specification-side notions for [compressImage] *)

Module CompressSpec.

Import JSNumber JSPromise ImageProcessing.

Section Encodings.
Context {Blob : Type}.
Variable blobSize : Blob -> N.
Variable targetBytes : Q.

(** The encodings produced by a list of encoder calls, in order. *)
Definition produced (calls : list (Q * Promise Blob)) : list Blob :=
  flat_map (fun call => match snd call with
                        | Resolved b => [b]
                        | Rejected _ => []
                        end) calls.

Definition withinTolerance (b : Blob) : Prop :=
  distance blobSize targetBytes b < tolerance.



End Encodings.

(** The order of the three qualities. *)
Definition ordered {Blob : Type} (s : Search Blob) : Prop :=
  minQuality s <= quality s /\ quality s <= maxQuality s.

(** The order, within the initial range. *)
Definition inRange {Blob : Type} (s : Search Blob) : Prop :=
  0.10 <= minQuality s /\ ordered s /\ maxQuality s <= 0.95.

(** Encoders whose output is a byte count only. *)
Definition byteCount (b : N) : N := b.

Definition healthy (sizeAt : Q -> N) (contextOk : bool) : Platform N :=
  {| loadImage := fun _ => Resolved {| img_width := 256; img_height := 256 |};
     context2d := contextOk;
     canvasToBlob := fun _ q => Resolved (sizeAt q);
     blobToDataUrl := fun _ => Resolved "data:image/jpeg;base64,"%string |}.

(** A size that grows linearly with the quality: 20000 bytes at quality 1. *)
Definition linearSize (q : Q) : N := Z.to_N (Qfloor (q * 20000)).

(** A size that ignores the quality. *)
Definition constantSize (n : N) (q : Q) : N := n.

(** Two sizes, 2240 bytes below and above a target of 10 KB. *)
Definition twoSizes (q : Q) : N :=
  if Qle_bool q 0.5 then 8000%N else 12480%N.

(** A canvas that cannot be encoded. *)
Definition unencodable : Platform N :=
  {| loadImage := fun _ => Resolved {| img_width := 256; img_height := 256 |};
     context2d := true;
     canvasToBlob := fun _ q => Rejected (Error "Failed to create blob");
     blobToDataUrl := fun _ => Resolved "data:image/jpeg;base64,"%string |}.

End CompressSpec.

(** ** The guidance calculator of the native plugins

    [FaceDetectionPlugin.calculateGuidance] of the iOS plugin (Swift) and of
    the Android plugin (Kotlin) are the same procedure on [Double]s; the
    strings they return are the members of [FaceGuidance].  The numbers are
    exact rationals here, without the rounding of [Double]: this model
    serves the one fact below about a face whose centre is the oval's. *)

Module NativeGuidance.

Import JSNumber FaceDetection.

(** The oval as the plugins read it from the call. *)
Record OvalBounds : Type := {
  centerX : Q;
  centerY : Q;
  radiusX : Q;
  radiusY : Q
}.

Section Guidance.
Variables faceX faceY faceWidth faceHeight : Q.
Variable ovalBounds : OvalBounds.

Definition faceCenterX : Q := faceX + faceWidth / 2.
Definition faceCenterY : Q := faceY + faceHeight / 2.

Definition positionThreshold : Q := 0.08.
Definition faceSize : Q := max faceWidth faceHeight.
Definition ovalSize : Q := max (radiusX ovalBounds * 2) (radiusY ovalBounds * 2).
Definition sizeRatio : jsnum := div faceSize ovalSize.

Definition xOffset : Q := faceCenterX - centerX ovalBounds.
Definition yOffset : Q := faceCenterY - centerY ovalBounds.

Definition calculateGuidance : FaceGuidance :=
  if lt sizeRatio 0.5 then move_closer
  else if gt sizeRatio 1.1 then move_back
  else if Qltb xOffset (- positionThreshold) then move_right
  else if Qltb positionThreshold xOffset then move_left
  else if Qltb yOffset (- positionThreshold) then move_down
  else if Qltb positionThreshold yOffset then move_up
  else hold_still.
End Guidance.

End NativeGuidance.

(** ** The rest of the web plugin and of its interface *)

Module FaceDetectionMore.

Import JSPromise FaceDetection.

(** [dispose()] *)
Definition dispose {Model : Type} (this : FaceDetectionWeb Model)
  : FaceDetectionWeb Model * Promise unit :=
  match model this with
  | Some _ =>
      ({| model := None; isInitializing := isInitializing this;
          scriptsLoaded := scriptsLoaded this |}, Resolved tt)
  | None => (this, Resolved tt)
  end.

(** [getGuidanceMessage(guidance)] *)
Definition getGuidanceMessage (guidance : FaceGuidance) : string :=
  match guidance with
  | no_face => "Position your face in the frame"
  | move_closer => "Move closer"
  | move_back => "Move back a little"
  | move_left => "Move slightly left"
  | move_right => "Move slightly right"
  | move_up => "Move up a little"
  | move_down => "Move down a little"
  | hold_still => "Perfect! Hold still"
  | multiple_faces => "Only one face allowed"
  end.

End FaceDetectionMore.

(** ** The home page: frame and crop geometry, file sizes *)

Module HomePage.

Import JSNumber.

(** A non-negative integer as JavaScript prints it. *)
Definition digits (n : N) : string := NilZero.string_of_uint (N.to_uint n).

(** The integer [n] for which [n / 10] is closest to [v], the larger one
    of two; [v] is not negative. *)
Definition tenths (v : Q) : Z := Qfloor (v * 10 + (1 # 2)).

(** [v.toFixed(1)] for [0 <= v < 1e21]; above that a number is printed with
    an exponent. *)
Definition toFixed1 (v : Q) : string :=
  (digits (Z.to_N (tenths v / 10)) ++ "." ++ digits (Z.to_N (tenths v mod 10)))%string.

(** [formatFileSize(bytes)] on a byte count below 2^53: a number holds such
    a count exactly, and its quotients by 1024 and by 1024 * 1024, powers of
    two, are exact as well.  Larger counts are outside this definition. *)
Definition formatFileSize (bytes : N) : string :=
  let b := inject_Z (Z.of_N bytes) in
  if Qltb b 1024 then (digits bytes ++ " B")%string
  else if Qltb b (1024 * 1024) then (toFixed1 (b / 1024) ++ " KB")%string
  else (toFixed1 (b / (1024 * 1024)) ++ " MB")%string.

(** [Math.min] on pixel counts. *)
Definition min (a b : Q) : Q := if Qltb b a then b else a.



End HomePage.

(** ** The elliptical mask of the web background removal *)

Module BackgroundRemovalWeb.

(** The canvas side, the ellipse [(centre, centre, radiusX, radiusY)] and
    the place [(-offsetX, -offsetY)] at which [removeBackground] draws an
    image of the given size. *)
Record Mask : Type := {
  size : Q;
  ellipseX : Q;
  ellipseY : Q;
  ellipseRadiusX : Q;
  ellipseRadiusY : Q;
  drawX : Q;
  drawY : Q
}.

Definition mask (imgWidth imgHeight : positive) : Mask :=
  let w := inject_Z (Zpos imgWidth) in
  let h := inject_Z (Zpos imgHeight) in
  let size := HomePage.min w h in
  let offsetX := (w - size) / 2 in
  let offsetY := (h - size) / 2 in
  {| size := size;
     ellipseX := size / 2;
     ellipseY := size / 2;
     ellipseRadiusX := size * 0.45;
     ellipseRadiusY := size * 0.48;
     drawX := - offsetX;
     drawY := - offsetY |}.

End BackgroundRemovalWeb.

(** ** Data URLs in the native plugins *)

Module DataUrl.

#[local] Open Scope string_scope.

(** [s.contains(",")] *)
Fixpoint contains (sep : ascii) (s : string) : bool :=
  match s with
  | "" => false
  | String c rest => Ascii.eqb c sep || contains sep rest
  end.

(** Kotlin's [s.substringAfter(",")]: what follows the first separator; the
    whole string when there is none. *)
Fixpoint afterFirst (sep : ascii) (s : string) : option string :=
  match s with
  | "" => None
  | String c rest => if Ascii.eqb c sep then Some rest else afterFirst sep rest
  end.

Definition substringAfter (sep : ascii) (s : string) : string :=
  match afterFirst sep s with
  | Some rest => rest
  | None => s
  end.

(** Swift's [s.split(separator: ",")]: the pieces between separators,
    empty pieces left out; [piece] is the piece being read. *)
Fixpoint splitFrom (sep : ascii) (piece s : string) : list string :=
  match s with
  | "" => match piece with "" => [] | _ => [piece] end
  | String c rest =>
      if Ascii.eqb c sep then
        match piece with
        | "" => splitFrom sep "" rest
        | _ => piece :: splitFrom sep "" rest
        end
      else splitFrom sep (piece ++ String c "") rest
  end.

Definition split (sep : ascii) (s : string) : list string := splitFrom sep "" s.

(** The base64 text that [decodeBase64Image] (Android) decodes. *)
Definition androidBase64 (dataUrl : string) : string :=
  if contains "," dataUrl then substringAfter "," dataUrl else dataUrl.

(** The base64 text that [imageFromDataUrl] (iOS) decodes. *)
Definition iosBase64 (dataUrl : string) : string :=
  if contains "," dataUrl then last (split "," dataUrl) "" else dataUrl.

(** [encodeToDataUrl] (Android) and [imageToDataUrl] (iOS) on the base64
    text of the PNG. *)
Definition toDataUrl (base64 : string) : string := "data:image/png;base64," ++ base64.

End DataUrl.

(** ** Specification-side notions for the added facts *)

Module MoreSpec.

Import JSNumber JSPromise FaceDetection.



(** A plugin that holds a model. *)
Definition loadedPlugin : FaceDetectionWeb unit :=
  {| model := Some tt; isInitializing := false; scriptsLoaded := true |}.

(** A canvas that encodes to 14000 bytes above quality 0.5 and cannot be
    encoded at or below it. *)
Definition flaky : ImageProcessing.Platform N :=
  {| ImageProcessing.loadImage :=
       fun _ => Resolved {| img_width := 256; img_height := 256 |};
     ImageProcessing.context2d := true;
     ImageProcessing.canvasToBlob := fun _ q =>
       if Qle_bool q 0.5 then Rejected (Error "Failed to create blob")
       else Resolved 14000%N;
     ImageProcessing.blobToDataUrl :=
       fun _ => Resolved "data:image/jpeg;base64,"%string |}.

End MoreSpec.

(** ** Facts about binary64 numbers

    Derived from the specification of the primitive operations: the order is
    that of the integers [scaled], and a difference is negative exactly when
    its first operand is below its second. *)

Module FloatFacts.

Import Binary64.

#[local] Open Scope Z_scope.

Lemma digits2_pos_bounds (m : positive) :
  2 ^ (Zpos (digits2_pos m) - 1) <= Zpos m < 2 ^ Zpos (digits2_pos m).
Proof.
  induction m as [m IH | m IH |]; cbn [digits2_pos].
  - rewrite Pos2Z.inj_succ.
    replace (Z.succ (Zpos (digits2_pos m)) - 1)
      with (Z.succ (Zpos (digits2_pos m) - 1)) by lia.
    rewrite !Z.pow_succ_r by lia. lia.
  - rewrite Pos2Z.inj_succ.
    replace (Z.succ (Zpos (digits2_pos m)) - 1)
      with (Z.succ (Zpos (digits2_pos m) - 1)) by lia.
    rewrite !Z.pow_succ_r by lia. lia.
  - cbn. lia.
Qed.

(** The shape of a valid finite number. *)
Lemma bounded_inv (m : positive) (e : Z) :
  bounded prec emax m e = true ->
  -1074 <= e <= 971 /\ Zpos (digits2_pos m) <= 53 /\
  (-1074 < e -> Zpos (digits2_pos m) = 53).
Proof.
  unfold bounded, canonical_mantissa, fexp, SpecFloat.emin, prec, emax.
  intros H. apply andb_true_iff in H. destruct H as [H1 H2].
  apply Z.eqb_eq in H1. apply Z.leb_le in H2. lia.
Qed.

Lemma finite_scaled (m : positive) (e : Z) :
  bounded prec emax m e = true ->
  0 < Zpos m * 2 ^ (e + 1074) < 2 ^ 2098.
Proof.
  intros H. apply bounded_inv in H. destruct H as [He [Hd _]].
  pose proof (digits2_pos_bounds m) as [_ Hm].
  assert (Hp : 0 < 2 ^ (e + 1074)) by (apply Z.pow_pos_nonneg; lia).
  split; [lia|].
  assert (H53 : 2 ^ Zpos (digits2_pos m) <= 2 ^ 53)
    by (apply Z.pow_le_mono_r; lia).
  assert (H2045 : 2 ^ (e + 1074) <= 2 ^ 2045)
    by (apply Z.pow_le_mono_r; lia).
  replace (2 ^ 2098) with (2 ^ 53 * 2 ^ 2045) by (rewrite <- Z.pow_add_r; [reflexivity|lia|lia]).
  apply Z.lt_le_trans with (2 ^ 53 * 2 ^ (e + 1074)).
  - apply Z.mul_lt_mono_pos_r; lia.
  - apply Z.mul_le_mono_nonneg_l; lia.
Qed.

Lemma finite_compare (m1 m2 : positive) (e1 e2 : Z) :
  bounded prec emax m1 e1 = true ->
  bounded prec emax m2 e2 = true ->
  match e1 ?= e2 with
  | Lt => Lt
  | Gt => Gt
  | Eq => Pos.compare_cont Eq m1 m2
  end = (Zpos m1 * 2 ^ (e1 + 1074) ?= Zpos m2 * 2 ^ (e2 + 1074)).
Proof.
  intros H1 H2.
  apply bounded_inv in H1. destruct H1 as [He1 [Hd1 Hn1]].
  apply bounded_inv in H2. destruct H2 as [He2 [Hd2 Hn2]].
  pose proof (digits2_pos_bounds m1) as [Hl1 Hu1].
  pose proof (digits2_pos_bounds m2) as [Hl2 Hu2].
  assert (H53 : forall d, d <= 53 -> 2 ^ d <= 2 ^ 53)
    by (intros d Hd; apply Z.pow_le_mono_r; lia).
  assert (Hstep : forall a b, -1074 <= a -> a < b ->
             2 * 2 ^ (a + 1074) <= 2 ^ (b + 1074)).
  { intros a b Ha Hab. rewrite <- Z.pow_succ_r by lia.
    apply Z.pow_le_mono_r; lia. }
  assert (Hpos : forall a, -1074 <= a -> 0 < 2 ^ (a + 1074))
    by (intros a Ha; apply Z.pow_pos_nonneg; lia).
  destruct (Z.compare_spec e1 e2) as [Heq | Hlt | Hgt].
  - subst e2. specialize (Hpos e1 ltac:(lia)).
    change (Pos.compare_cont Eq m1 m2) with (Pos.compare m1 m2).
    destruct (Pos.compare_spec m1 m2) as [Hm | Hm | Hm]; symmetry.
    + subst m2. apply Z.compare_refl.
    + apply Z.compare_lt_iff. apply Z.mul_lt_mono_pos_r; lia.
    + apply Z.compare_gt_iff. apply Z.mul_lt_mono_pos_r; lia.
  - symmetry. apply Z.compare_lt_iff.
    rewrite (Hn2 ltac:(lia)) in Hl2. change (2 ^ (53 - 1)) with (2 ^ 52) in Hl2.
    specialize (H53 _ Hd1). specialize (Hstep e1 e2 ltac:(lia) Hlt).
    specialize (Hpos e1 ltac:(lia)).
    change (2 ^ 53) with (2 * 2 ^ 52) in H53.
    nia.
  - symmetry. apply Z.compare_gt_iff.
    rewrite (Hn1 ltac:(lia)) in Hl1. change (2 ^ (53 - 1)) with (2 ^ 52) in Hl1.
    specialize (H53 _ Hd2). specialize (Hstep e2 e1 ltac:(lia) ltac:(lia)).
    specialize (Hpos e2 ltac:(lia)).
    change (2 ^ 53) with (2 * 2 ^ 52) in H53.
    nia.
Qed.

Lemma SFcompare_scaled (x y : spec_float) :
  valid_binary x = true -> valid_binary y = true ->
  x <> S754_nan -> y <> S754_nan ->
  SFcompare x y = Some (scaled x ?= scaled y).
Proof.
  destruct x as [sx | sx | | sx mx ex], y as [sy | sy | | sy my ey];
    cbn [valid_binary SpecFloat.valid_binary]; intros Hx Hy Nx Ny;
    try congruence; cbn [SFcompare scaled];
    assert (Hbig : 0 < 2 ^ 2098) by (apply Z.pow_pos_nonneg; lia).
  - reflexivity.
  - destruct sy; reflexivity.
  - pose proof (finite_scaled _ _ Hy). destruct sy; cbn [cond_Zopp]; f_equal; symmetry.
    + apply Z.compare_gt_iff; lia.
    + apply Z.compare_lt_iff; lia.
  - destruct sx; reflexivity.
  - destruct sx, sy; reflexivity.
  - pose proof (finite_scaled _ _ Hy).
    destruct sx, sy; cbn [cond_Zopp]; f_equal; symmetry;
      first [apply Z.compare_lt_iff; lia | apply Z.compare_gt_iff; lia].
  - pose proof (finite_scaled _ _ Hx). destruct sx; cbn [cond_Zopp]; f_equal; symmetry.
    + apply Z.compare_lt_iff; lia.
    + apply Z.compare_gt_iff; lia.
  - pose proof (finite_scaled _ _ Hx).
    destruct sx, sy; cbn [cond_Zopp]; f_equal; symmetry;
      first [apply Z.compare_lt_iff; lia | apply Z.compare_gt_iff; lia].
  - pose proof (finite_scaled _ _ Hx). pose proof (finite_scaled _ _ Hy).
    f_equal. destruct sx, sy; cbn [cond_Zopp].
    + rewrite Z.compare_opp.
      rewrite <- (finite_compare my mx ey ex Hy Hx).
      rewrite (Z.compare_antisym ex ey).
      destruct (Z.compare_spec ex ey); cbn [CompOpp]; try reflexivity.
      rewrite (Pos.compare_cont_antisym mx my Eq). reflexivity.
    + symmetry. apply Z.compare_lt_iff; lia.
    + symmetry. apply Z.compare_gt_iff; lia.
    + apply finite_compare; assumption.
Qed.

(** *** Subtraction and the sign of its result *)

Lemma iter_xO (m d : positive) : Zpos (Pos.iter xO m d) = Zpos m * 2 ^ Zpos d.
Proof.
  induction d as [| d IH] using Pos.peano_ind.
  - cbn. lia.
  - rewrite Pos.iter_succ, Pos2Z.inj_succ, Z.pow_succ_r by lia.
    rewrite Pos2Z.inj_xO, IH. lia.
Qed.

Lemma shl_align_scaled (m : positive) (e ez : Z) :
  -1074 <= ez <= e ->
  Zpos (fst (shl_align m e ez)) * 2 ^ (ez + 1074) = Zpos m * 2 ^ (e + 1074).
Proof.
  intros H. unfold shl_align. destruct (ez - e) as [| p | p] eqn:E; cbn [fst].
  - replace e with ez by lia. reflexivity.
  - lia.
  - rewrite iter_xO. replace (e + 1074) with (Zpos p + (ez + 1074)) by lia.
    rewrite (Z.pow_add_r 2 (Zpos p) (ez + 1074)) by lia. ring.
Qed.

Lemma shr_1_lower (k : Z) (r : shr_record) :
  0 <= k -> 2 ^ (k + 1) <= shr_m r -> 2 ^ k <= shr_m (shr_1 r).
Proof.
  intros Hk. rewrite Z.add_1_r, Z.pow_succ_r by lia.
  assert (0 < 2 ^ k) by (apply Z.pow_pos_nonneg; lia).
  destruct r as [[| [p | p |] | p] r s]; cbn [shr_1 shr_m]; lia.
Qed.

Lemma iter_shr_1_lower (p : positive) :
  forall (k : Z) (r : shr_record),
    0 <= k -> 2 ^ (k + Zpos p) <= shr_m r -> 2 ^ k <= shr_m (SpecFloat.iter_pos shr_1 p r).
Proof.
  induction p as [p IH | p IH |]; intros k r Hk H; cbn [SpecFloat.iter_pos].
  - apply IH; [lia|]. apply IH; [lia|]. apply shr_1_lower; [lia|].
    replace (k + Zpos p + Zpos p + 1) with (k + Zpos p~1) by lia. exact H.
  - apply IH; [lia|]. apply IH; [lia|].
    replace (k + Zpos p + Zpos p) with (k + Zpos p~0) by lia. exact H.
  - apply shr_1_lower; assumption.
Qed.

Lemma shr_m_of_loc (m : Z) (l : location) : shr_m (shr_record_of_loc m l) = m.
Proof. destruct l as [| []]; reflexivity. Qed.

Lemma shr_fexp_positive (m : positive) (e : Z) (l : location) :
  -1074 <= e ->
  0 < shr_m (fst (shr_fexp prec emax (Zpos m) e l)) /\
  -1074 <= snd (shr_fexp prec emax (Zpos m) e l).
Proof.
  intros He. unfold shr_fexp, shr, fexp, SpecFloat.emin, prec, emax.
  cbn [Zdigits2].
  pose proof (digits2_pos_bounds m) as [Hl _].
  destruct (Z.max (Zpos (digits2_pos m) + e - 53) (3 - 1024 - 53) - e)
    as [| n | n] eqn:E; cbn [fst snd]; rewrite ?shr_m_of_loc; try lia.
  split; [|lia].
  apply Z.lt_le_trans with (2 ^ 0); [reflexivity|].
  apply iter_shr_1_lower; [lia|]. rewrite shr_m_of_loc.
  apply Z.le_trans with (2 ^ (Zpos (digits2_pos m) - 1)); [|exact Hl].
  apply Z.pow_le_mono_r; lia.
Qed.

Lemma round_nearest_even_lower (m : Z) (l : location) :
  m <= round_nearest_even m l.
Proof.
  destruct l as [| []]; cbn [round_nearest_even]; try lia.
  destruct (Z.even m); lia.
Qed.

Lemma binary_round_aux_negative (m : positive) (e : Z) (l : location) :
  -1074 <= e ->
  SFltb (binary_round_aux prec emax true (Zpos m) e l) (S754_zero false) = true.
Proof.
  intros He. unfold binary_round_aux.
  destruct (shr_fexp_positive m e l He) as [H1 H2].
  destruct (shr_fexp prec emax (Zpos m) e l) as [mrs' e'] eqn:E1.
  cbn [fst snd] in H1, H2.
  pose proof (round_nearest_even_lower (shr_m mrs') (loc_of_shr_record mrs')) as Hr.
  destruct (round_nearest_even (shr_m mrs') (loc_of_shr_record mrs'))
    as [| m' | m'] eqn:E2; try lia.
  destruct (shr_fexp_positive m' e' loc_Exact H2) as [H3 _].
  destruct (shr_fexp prec emax (Zpos m') e' loc_Exact) as [mrs'' e''] eqn:E3.
  cbn [fst] in H3.
  destruct (shr_m mrs'') as [| m'' | m'']; try lia.
  destruct (e'' <=? emax - prec); reflexivity.
Qed.

Lemma binary_round_negative (m : positive) (e : Z) :
  -1074 <= e ->
  SFltb (binary_round prec emax true m e) (S754_zero false) = true.
Proof.
  intros He. unfold binary_round.
  destruct (shl_align m e (fexp prec emax (Zpos (digits2_pos m) + e)))
    as [mz ez] eqn:E.
  apply binary_round_aux_negative.
  unfold shl_align in E.
  destruct (fexp prec emax (Zpos (digits2_pos m) + e) - e) eqn:E';
    inversion E; subst; try lia.
  unfold fexp, SpecFloat.emin, prec, emax. lia.
Qed.

Lemma binary_round_aux_positive (M e : Z) (l : location) :
  SFltb (binary_round_aux prec emax false M e l) (S754_zero false) = false.
Proof.
  unfold binary_round_aux.
  destruct (shr_fexp prec emax M e l) as [mrs' e'].
  destruct (shr_fexp prec emax _ e' loc_Exact) as [mrs'' e''].
  destruct (shr_m mrs''); try reflexivity.
  destruct (e'' <=? emax - prec); reflexivity.
Qed.

Lemma binary_round_positive (m : positive) (e : Z) :
  SFltb (binary_round prec emax false m e) (S754_zero false) = false.
Proof.
  unfold binary_round.
  destruct (shl_align m e _) as [mz ez]. apply binary_round_aux_positive.
Qed.

Lemma SFltb_scaled (x y : spec_float) :
  valid_binary x = true -> valid_binary y = true ->
  x <> S754_nan -> y <> S754_nan ->
  SFltb x y = (scaled x <? scaled y).
Proof.
  intros Hx Hy Nx Ny. unfold SFltb, Z.ltb.
  rewrite (SFcompare_scaled x y Hx Hy Nx Ny). reflexivity.
Qed.

(** The difference of two finite numbers is the rounded difference of their
    scaled values. *)
Lemma SFsub_finite (sx sy : bool) (mx my : positive) (ex ey : Z) :
  bounded prec emax mx ex = true -> bounded prec emax my ey = true ->
  exists z : Z,
    SF64sub (S754_finite sx mx ex) (S754_finite sy my ey)
      = binary_normalize prec emax z (Z.min ex ey) false /\
    z * 2 ^ (Z.min ex ey + 1074)
    = scaled (S754_finite sx mx ex) - scaled (S754_finite sy my ey).
Proof.
  intros Hx Hy.
  pose proof (bounded_inv _ _ Hx) as [Hex _].
  pose proof (bounded_inv _ _ Hy) as [Hey _].
  eexists. split; [reflexivity|]. cbn [scaled].
  rewrite <- (shl_align_scaled mx ex (Z.min ex ey)) by lia.
  rewrite <- (shl_align_scaled my ey (Z.min ex ey)) by lia.
  destruct sx, sy; cbn [cond_Zopp]; ring.
Qed.

(** [x - y] is negative exactly when [x < y]. *)
Lemma SFsub_negative (x y : spec_float) :
  valid_binary x = true -> valid_binary y = true ->
  SFltb (SF64sub x y) (S754_zero false) = SFltb x y.
Proof.
  destruct x as [sx | sx | | sx mx ex], y as [sy | sy | | sy my ey];
    intros Hx Hy; try reflexivity;
    try (destruct sx; reflexivity); try (destruct sy; reflexivity);
    try (destruct sx, sy; reflexivity).
  rewrite (SFltb_scaled _ _ Hx Hy) by discriminate.
  cbn [valid_binary SpecFloat.valid_binary] in Hx, Hy.
  pose proof (bounded_inv _ _ Hx) as [Hex _].
  pose proof (bounded_inv _ _ Hy) as [Hey _].
  destruct (SFsub_finite sx sy mx my ex ey Hx Hy) as (z & -> & Hz).
  assert (HK : 0 < 2 ^ (Z.min ex ey + 1074)) by (apply Z.pow_pos_nonneg; lia).
  destruct z as [| z | z]; cbn [binary_normalize].
  - symmetry. apply Z.ltb_ge. lia.
  - rewrite binary_round_positive. symmetry. apply Z.ltb_ge. nia.
  - rewrite binary_round_negative by lia. symmetry. apply Z.ltb_lt. nia.
Qed.

(** *** Magnitudes

    Rounding a value does not take it past the next power of two, so sums,
    differences and products of numbers of moderate magnitude are finite. *)

Lemma shr_1_upper (r : shr_record) :
  0 <= shr_m r -> 0 <= shr_m (shr_1 r) /\ 2 * shr_m (shr_1 r) <= shr_m r.
Proof.
  destruct r as [[| [p | p |] | p] r s]; cbn [shr_1 shr_m]; lia.
Qed.

Lemma iter_shr_1_upper (p : positive) :
  forall r : shr_record,
    0 <= shr_m r ->
    0 <= shr_m (SpecFloat.iter_pos shr_1 p r) /\
    shr_m (SpecFloat.iter_pos shr_1 p r) * 2 ^ Zpos p <= shr_m r.
Proof.
  induction p as [p IH | p IH |]; intros r Hr; cbn [SpecFloat.iter_pos].
  - destruct (shr_1_upper r Hr) as [H1 H1'].
    destruct (IH _ H1) as [H2 H2'].
    destruct (IH _ H2) as [H3 H3'].
    split; [exact H3|].
    replace (Zpos p~1) with (Zpos p + Zpos p + 1) by lia.
    rewrite !Z.pow_add_r by lia. change (2 ^ 1) with 2.
    assert (0 < 2 ^ Zpos p) by (apply Z.pow_pos_nonneg; lia). nia.
  - destruct (IH _ Hr) as [H2 H2'].
    destruct (IH _ H2) as [H3 H3'].
    split; [exact H3|].
    replace (Zpos p~0) with (Zpos p + Zpos p) by lia.
    rewrite !Z.pow_add_r by lia.
    assert (0 < 2 ^ Zpos p) by (apply Z.pow_pos_nonneg; lia). nia.
  - destruct (shr_1_upper r Hr) as [H1 H1']. split; [exact H1|].
    change (2 ^ 1) with 2. lia.
Qed.

(** Shifting to the canonical exponent does not increase the value. *)
Lemma shr_fexp_upper (M E c : Z) (l : location) :
  0 <= M -> 0 <= E + c ->
  0 <= shr_m (fst (shr_fexp prec emax M E l)) /\
  E <= snd (shr_fexp prec emax M E l) /\
  -1074 <= snd (shr_fexp prec emax M E l) /\
  snd (shr_fexp prec emax M E l)
    <= Z.max E (Z.max (Zdigits2 M + E - 53) (-1074)) /\
  shr_m (fst (shr_fexp prec emax M E l)) * 2 ^ (snd (shr_fexp prec emax M E l) + c)
    <= M * 2 ^ (E + c).
Proof.
  intros HM HE. unfold shr_fexp, shr, fexp, SpecFloat.emin, prec, emax.
  destruct (Z.max (Zdigits2 M + E - 53) (3 - 1024 - 53) - E) as [| n | n] eqn:En;
    cbn [fst snd]; rewrite ?shr_m_of_loc.
  - repeat split; lia.
  - destruct (iter_shr_1_upper n (shr_record_of_loc M l)) as [H1 H2];
      [rewrite shr_m_of_loc; exact HM|].
    rewrite shr_m_of_loc in H2.
    repeat split; try lia.
    replace (E + Zpos n + c) with (Zpos n + (E + c)) by lia.
    rewrite Z.pow_add_r by lia.
    assert (0 < 2 ^ (E + c)) by (apply Z.pow_pos_nonneg; lia).
    nia.
  - repeat split; lia.
Qed.

Lemma round_nearest_even_upper (m : Z) (l : location) :
  round_nearest_even m l <= m + 1.
Proof.
  destruct l as [| []]; cbn [round_nearest_even]; try lia.
  destruct (Z.even m); lia.
Qed.

Lemma pow2_le_inv (a b : Z) : 0 <= b -> 2 ^ a <= 2 ^ b -> a <= b.
Proof. intros Hb H. apply (Z.pow_le_mono_r_iff 2); lia. Qed.

(** Rounding a value of at most [2^K] gives zero or a finite number of at
    most [2^(K+1)]; [c] is the unit, [2^-c], in which the value is counted. *)
Lemma binary_round_aux_small (sx : bool) (M : positive) (E K c : Z) :
  0 <= E + c -> 1074 <= c -> 0 <= K <= 970 ->
  Zpos M * 2 ^ (E + c) <= 2 ^ (K + c) ->
  small (K + 1) (binary_round_aux prec emax sx (Zpos M) E loc_Exact).
Proof.
  intros HE Hc HK HB. unfold binary_round_aux.
  destruct (shr_fexp_upper (Zpos M) E c loc_Exact) as (H1 & H2 & H3 & H4 & H5);
    [lia | lia |].
  destruct (shr_fexp prec emax (Zpos M) E loc_Exact) as [mrs' e'].
  cbn [fst snd] in *.
  pose proof (digits2_pos_bounds M) as [Hd _].
  assert (HpE : 0 < 2 ^ (E + c)) by (apply Z.pow_pos_nonneg; lia).
  assert (HEK : E <= K).
  { assert (2 ^ (E + c) <= 2 ^ (K + c)) by nia.
    assert (E + c <= K + c) by (apply pow2_le_inv; lia). lia. }
  assert (HdK : Zpos (digits2_pos M) + E <= K + 1).
  { assert (2 ^ (Zpos (digits2_pos M) - 1 + (E + c)) <= 2 ^ (K + c)).
    { rewrite Z.pow_add_r by lia. nia. }
    assert (Zpos (digits2_pos M) - 1 + (E + c) <= K + c)
      by (apply pow2_le_inv; lia). lia. }
  cbn [Zdigits2] in H4.
  assert (He' : e' <= K) by lia.
  pose proof (round_nearest_even_lower (shr_m mrs') (loc_of_shr_record mrs')) as Hlo.
  pose proof (round_nearest_even_upper (shr_m mrs') (loc_of_shr_record mrs')) as Hup.
  set (M' := round_nearest_even (shr_m mrs') (loc_of_shr_record mrs')) in *.
  assert (Hpe' : 0 < 2 ^ (e' + c)) by (apply Z.pow_pos_nonneg; lia).
  assert (HK1 : 2 ^ (K + 1 + c) = 2 * 2 ^ (K + c)).
  { replace (K + 1 + c) with (Z.succ (K + c)) by lia.
    rewrite Z.pow_succ_r by lia. reflexivity. }
  assert (HB' : M' * 2 ^ (e' + c) <= 2 ^ (K + 1 + c)).
  { rewrite HK1.
    assert (Hcase : shr_m mrs' = 0 \/ 1 <= shr_m mrs') by lia.
    destruct Hcase as [H0 | H0].
    - assert (2 ^ (e' + c) <= 2 ^ (K + c)) by (apply Z.pow_le_mono_r; lia).
      assert (0 < 2 ^ (K + c)) by (apply Z.pow_pos_nonneg; lia). nia.
    - nia. }
  destruct (shr_fexp_upper M' e' c loc_Exact) as (G1 & G2 & G3 & G4 & G5);
    [lia | lia |].
  destruct (shr_fexp prec emax M' e' loc_Exact) as [mrs'' e''].
  cbn [fst snd] in *.
  destruct (shr_m mrs'') as [| m | m]; cbn [small]; [exact I | | lia].
  assert (Hpe'' : 0 < 2 ^ (e'' + c)) by (apply Z.pow_pos_nonneg; lia).
  assert (Hm : Zpos m * 2 ^ (e'' + c) <= 2 ^ (K + 1 + c)) by lia.
  assert (He'' : e'' <= K + 1).
  { assert (2 ^ (e'' + c) <= 2 ^ (K + 1 + c)) by nia.
    assert (e'' + c <= K + 1 + c) by (apply pow2_le_inv; lia). lia. }
  assert (Hleb : (e'' <=? emax - prec) = true)
    by (apply Z.leb_le; unfold emax, prec; lia).
  rewrite Hleb. cbn [small].
  replace (e'' + c) with (e'' + 1074 + (c - 1074)) in Hm by lia.
  replace (K + 1 + c) with (K + 1 + 1074 + (c - 1074)) in Hm by lia.
  rewrite (Z.pow_add_r 2 (e'' + 1074) (c - 1074)),
    (Z.pow_add_r 2 (K + 1 + 1074) (c - 1074)) in Hm by lia.
  assert (Hu : 0 < 2 ^ (c - 1074)) by (apply Z.pow_pos_nonneg; lia).
  apply (Z.mul_le_mono_pos_r _ _ _ Hu). rewrite <- Z.mul_assoc. exact Hm.
Qed.

Lemma small_mono (k k' : Z) (x : spec_float) :
  k <= k' -> 0 <= k + 1074 -> small k x -> small k' x.
Proof.
  intros Hk H0. destruct x as [s | s | | s m e]; cbn [small]; try tauto.
  intros H. apply Z.le_trans with (2 ^ (k + 1074)); [exact H|].
  apply Z.pow_le_mono_r; lia.
Qed.

Lemma binary_round_small (sx : bool) (m : positive) (e K : Z) :
  -1074 <= e -> 0 <= K <= 970 ->
  Zpos m * 2 ^ (e + 1074) <= 2 ^ (K + 1074) ->
  small (K + 1) (binary_round prec emax sx m e).
Proof.
  intros He HK HB. unfold binary_round.
  destruct (shl_align m e (fexp prec emax (Zpos (digits2_pos m) + e)))
    as [mz ez] eqn:Ea.
  assert (Hz : -1074 <= ez /\ Zpos mz * 2 ^ (ez + 1074) = Zpos m * 2 ^ (e + 1074)).
  { pose proof (shl_align_scaled m e (fexp prec emax (Zpos (digits2_pos m) + e))) as Hs.
    unfold shl_align in Ea, Hs.
    destruct (fexp prec emax (Zpos (digits2_pos m) + e) - e) as [| p | p] eqn:Ep;
      inversion Ea; subst; cbn [fst] in Hs; try (split; [lia | reflexivity]).
    assert (Hf : -1074 <= fexp prec emax (Zpos (digits2_pos m) + e))
      by (unfold fexp, SpecFloat.emin, prec, emax; lia).
    split; [exact Hf|]. apply Hs. lia. }
  destruct Hz as [Hez Hval].
  apply (binary_round_aux_small sx mz ez K 1074); try lia.
Qed.

Lemma binary_normalize_small (z e K : Z) :
  -1074 <= e -> 0 <= K <= 970 ->
  Z.abs z * 2 ^ (e + 1074) <= 2 ^ (K + 1074) ->
  small (K + 1) (binary_normalize prec emax z e false).
Proof.
  intros He HK HB. destruct z as [| m | m]; cbn [binary_normalize].
  - exact I.
  - now apply binary_round_small.
  - now apply binary_round_small.
Qed.

Lemma SFadd_finite (sx sy : bool) (mx my : positive) (ex ey : Z) :
  bounded prec emax mx ex = true -> bounded prec emax my ey = true ->
  exists z : Z,
    SF64add (S754_finite sx mx ex) (S754_finite sy my ey)
      = binary_normalize prec emax z (Z.min ex ey) false /\
    z * 2 ^ (Z.min ex ey + 1074)
    = scaled (S754_finite sx mx ex) + scaled (S754_finite sy my ey).
Proof.
  intros Hx Hy.
  pose proof (bounded_inv _ _ Hx) as [Hex _].
  pose proof (bounded_inv _ _ Hy) as [Hey _].
  eexists. split; [reflexivity|]. cbn [scaled].
  rewrite <- (shl_align_scaled mx ex (Z.min ex ey)) by lia.
  rewrite <- (shl_align_scaled my ey (Z.min ex ey)) by lia.
  destruct sx, sy; cbn [cond_Zopp]; ring.
Qed.

Lemma small_scaled (k : Z) (s : bool) (m : positive) (e : Z) :
  small k (S754_finite s m e) ->
  Z.abs (scaled (S754_finite s m e)) <= 2 ^ (k + 1074).
Proof.
  cbn [small scaled]. intros H. destruct s; cbn [cond_Zopp]; lia.
Qed.

(** Sums and differences of small numbers are small. *)
Lemma SFsub_small (k : Z) (x y : spec_float) :
  0 <= k <= 968 ->
  valid_binary x = true -> valid_binary y = true ->
  small k x -> small k y -> small (k + 2) (SF64sub x y).
Proof.
  intros Hk.
  destruct x as [sx | sx | | sx mx ex], y as [sy | sy | | sy my ey];
    cbn [small]; try tauto; intros Vx Vy Sx Sy.
  - destruct sx, sy; exact I.
  - apply (small_mono k); [lia | lia | exact Sy].
  - apply (small_mono k); [lia | lia | exact Sx].
  - cbn [valid_binary SpecFloat.valid_binary] in Vx, Vy.
    pose proof (bounded_inv _ _ Vx) as [Hex _].
    pose proof (bounded_inv _ _ Vy) as [Hey _].
    destruct (SFsub_finite sx sy mx my ex ey Vx Vy) as (z & -> & Hz).
    pose proof (small_scaled k sx mx ex Sx) as Bx.
    pose proof (small_scaled k sy my ey Sy) as By.
    replace (k + 2) with (k + 1 + 1) by lia.
    apply binary_normalize_small; [lia | lia |].
    assert (HK1 : 2 ^ (k + 1 + 1074) = 2 * 2 ^ (k + 1074)).
    { replace (k + 1 + 1074) with (Z.succ (k + 1074)) by lia.
      rewrite Z.pow_succ_r by lia. reflexivity. }
    assert (Hp : 0 < 2 ^ (Z.min ex ey + 1074)) by (apply Z.pow_pos_nonneg; lia).
    rewrite HK1.
    replace (Z.abs z * 2 ^ (Z.min ex ey + 1074))
      with (Z.abs (z * 2 ^ (Z.min ex ey + 1074)))
      by (rewrite Z.abs_mul, (Z.abs_eq (2 ^ _)) by lia; reflexivity).
    rewrite Hz. lia.
Qed.

Lemma SFadd_small (k : Z) (x y : spec_float) :
  0 <= k <= 968 ->
  valid_binary x = true -> valid_binary y = true ->
  small k x -> small k y -> small (k + 2) (SF64add x y).
Proof.
  intros Hk.
  destruct x as [sx | sx | | sx mx ex], y as [sy | sy | | sy my ey];
    cbn [small]; try tauto; intros Vx Vy Sx Sy.
  - destruct sx, sy; exact I.
  - apply (small_mono k); [lia | lia | exact Sy].
  - apply (small_mono k); [lia | lia | exact Sx].
  - cbn [valid_binary SpecFloat.valid_binary] in Vx, Vy.
    pose proof (bounded_inv _ _ Vx) as [Hex _].
    pose proof (bounded_inv _ _ Vy) as [Hey _].
    destruct (SFadd_finite sx sy mx my ex ey Vx Vy) as (z & -> & Hz).
    pose proof (small_scaled k sx mx ex Sx) as Bx.
    pose proof (small_scaled k sy my ey Sy) as By.
    replace (k + 2) with (k + 1 + 1) by lia.
    apply binary_normalize_small; [lia | lia |].
    assert (HK1 : 2 ^ (k + 1 + 1074) = 2 * 2 ^ (k + 1074)).
    { replace (k + 1 + 1074) with (Z.succ (k + 1074)) by lia.
      rewrite Z.pow_succ_r by lia. reflexivity. }
    assert (Hp : 0 < 2 ^ (Z.min ex ey + 1074)) by (apply Z.pow_pos_nonneg; lia).
    rewrite HK1.
    replace (Z.abs z * 2 ^ (Z.min ex ey + 1074))
      with (Z.abs (z * 2 ^ (Z.min ex ey + 1074)))
      by (rewrite Z.abs_mul, (Z.abs_eq (2 ^ _)) by lia; reflexivity).
    rewrite Hz. lia.
Qed.

(** The product of two small numbers is small. *)
Lemma SFmul_small (k1 k2 : Z) (x y : spec_float) :
  0 <= k1 -> 0 <= k2 -> k1 + k2 <= 970 ->
  valid_binary x = true -> valid_binary y = true ->
  small k1 x -> small k2 y -> small (k1 + k2 + 1) (SF64mul x y).
Proof.
  intros H1 H2 H12.
  destruct x as [sx | sx | | sx mx ex], y as [sy | sy | | sy my ey];
    cbn [small]; try tauto; intros Vx Vy Sx Sy; try exact I.
  cbn [valid_binary SpecFloat.valid_binary] in Vx, Vy.
  pose proof (bounded_inv _ _ Vx) as [Hex _].
  pose proof (bounded_inv _ _ Vy) as [Hey _].
  unfold SF64mul, SFmul.
  apply (binary_round_aux_small _ _ _ (k1 + k2) 2148); try lia.
  replace (ex + ey + 2148) with ((ex + 1074) + (ey + 1074)) by lia.
  replace (k1 + k2 + 2148) with ((k1 + 1074) + (k2 + 1074)) by lia.
  rewrite (Z.pow_add_r 2 (ex + 1074) (ey + 1074)),
    (Z.pow_add_r 2 (k1 + 1074) (k2 + 1074)) by lia.
  rewrite Pos2Z.inj_mul.
  assert (0 < 2 ^ (ex + 1074)) by (apply Z.pow_pos_nonneg; lia).
  assert (0 < 2 ^ (ey + 1074)) by (apply Z.pow_pos_nonneg; lia).
  replace (Zpos mx * Zpos my * (2 ^ (ex + 1074) * 2 ^ (ey + 1074)))
    with ((Zpos mx * 2 ^ (ex + 1074)) * (Zpos my * 2 ^ (ey + 1074))) by ring.
  apply Z.mul_le_mono_nonneg; lia.
Qed.

(** *** The same facts on primitive numbers *)

#[local] Open Scope float_scope.

Lemma ltb_sub_zero (a b : float) : (a - b <? 0) = (a <? b).
Proof.
  rewrite !FloatAxioms.ltb_spec, FloatAxioms.sub_spec.
  change (Prim2SF 0) with (S754_zero false).
  apply SFsub_negative; apply Prim2SF_valid.
Qed.

(** A number is not NaN exactly when it equals itself. *)
Lemma is_nan_false (a : float) : is_nan a = false <-> Prim2SF a <> S754_nan.
Proof.
  unfold is_nan. rewrite negb_false_iff, FloatAxioms.eqb_spec. unfold SFeqb. split.
  - intros H E. rewrite E in H. discriminate.
  - intros H.
    rewrite (SFcompare_scaled _ _ (Prim2SF_valid a) (Prim2SF_valid a) H H).
    now rewrite Z.compare_refl.
Qed.

(** The order of numbers is the order of their scaled values. *)
Lemma ltb_scaled (a b : float) :
  is_nan a = false -> is_nan b = false ->
  (a <? b) = (scaled (Prim2SF a) <? scaled (Prim2SF b))%Z.
Proof.
  intros Ha Hb. rewrite FloatAxioms.ltb_spec.
  apply SFltb_scaled; try apply Prim2SF_valid; now apply is_nan_false.
Qed.

(** Only numbers are below or above something. *)
Lemma ltb_numbers (a b : float) :
  (a <? b) = true -> is_nan a = false /\ is_nan b = false.
Proof.
  rewrite FloatAxioms.ltb_spec. unfold SFltb. intros H.
  split; apply is_nan_false; intros E; rewrite E in H;
    [|destruct (Prim2SF a)]; discriminate.
Qed.

Lemma ltb_lt (a b : float) :
  (a <? b) = true -> (scaled (Prim2SF a) < scaled (Prim2SF b))%Z.
Proof.
  intros H. destruct (ltb_numbers a b H) as [Ha Hb].
  rewrite (ltb_scaled a b Ha Hb) in H. now apply Z.ltb_lt.
Qed.

Lemma ltb_ge (a b : float) :
  is_nan a = false -> is_nan b = false ->
  (a <? b) = false -> (scaled (Prim2SF b) <= scaled (Prim2SF a))%Z.
Proof.
  intros Ha Hb H. rewrite (ltb_scaled a b Ha Hb) in H. now apply Z.ltb_ge.
Qed.

Lemma ltb_asym (a b : float) : (a <? b) = true -> (b <? a) = false.
Proof.
  intros H. destruct (ltb_numbers a b H) as [Ha Hb]. apply ltb_lt in H.
  rewrite (ltb_scaled b a Hb Ha). apply Z.ltb_ge. lia.
Qed.

Lemma ltb_irrefl (a : float) : (a <? a) = false.
Proof.
  destruct (a <? a) eqn:E; [|reflexivity]. apply ltb_lt in E. lia.
Qed.




(** *** Numbers of moderate magnitude *)

Lemma small_number (k : Z) (a : float) : small k (Prim2SF a) -> is_nan a = false.
Proof.
  intros H. apply is_nan_false. intros E. rewrite E in H. exact H.
Qed.

Lemma moderate_small (a : float) : moderate a -> small 900 (Prim2SF a).
Proof.
  unfold moderate. rewrite FloatAxioms.leb_spec, FloatAxioms.abs_spec.
  pose proof (Prim2SF_valid a) as Va.
  pose proof (Prim2SF_valid 0x1p900) as Vb.
  assert (Sb : scaled (Prim2SF 0x1p900) = (2 ^ (900 + 1074))%Z)
    by (vm_compute; reflexivity).
  assert (Nb : Prim2SF 0x1p900 <> S754_nan) by (vm_compute; discriminate).
  unfold SFleb.
  destruct (Prim2SF a) as [s | s | | s m e] eqn:Ea; cbn [small SFabs]; intros H.
  - exact I.
  - rewrite SFcompare_scaled in H by (assumption || discriminate || reflexivity).
    rewrite Sb in H. cbn [scaled cond_Zopp] in H.
    assert (Hgt : (2 ^ 2098 ?= 2 ^ (900 + 1074))%Z = Gt) by (vm_compute; reflexivity).
    rewrite Hgt in H. discriminate.
  - discriminate.
  - rewrite SFcompare_scaled in H by (assumption || discriminate).
    rewrite Sb in H. cbn [scaled cond_Zopp] in H.
    destruct (Z.compare_spec (Zpos m * 2 ^ (e + 1074)) (2 ^ (900 + 1074)))
      as [Hc | Hc | Hc]; try discriminate; lia.
Qed.

Lemma sub_small (k : Z) (a b : float) :
  (0 <= k <= 968)%Z ->
  small k (Prim2SF a) -> small k (Prim2SF b) -> small (k + 2) (Prim2SF (a - b)).
Proof.
  intros Hk Ha Hb. rewrite FloatAxioms.sub_spec.
  apply SFsub_small; try assumption; apply Prim2SF_valid.
Qed.

Lemma add_small (k : Z) (a b : float) :
  (0 <= k <= 968)%Z ->
  small k (Prim2SF a) -> small k (Prim2SF b) -> small (k + 2) (Prim2SF (a + b)).
Proof.
  intros Hk Ha Hb. rewrite FloatAxioms.add_spec.
  apply SFadd_small; try assumption; apply Prim2SF_valid.
Qed.

Lemma mul_small (k1 k2 : Z) (a b : float) :
  (0 <= k1)%Z -> (0 <= k2)%Z -> (k1 + k2 <= 970)%Z ->
  small k1 (Prim2SF a) -> small k2 (Prim2SF b) ->
  small (k1 + k2 + 1) (Prim2SF (a * b)).
Proof.
  intros H1 H2 H12 Ha Hb. rewrite FloatAxioms.mul_spec.
  apply SFmul_small; try assumption; apply Prim2SF_valid.
Qed.

(** A side of a box moved outward by a fraction of a length, and a centre
    moved by a radius, are numbers of moderate magnitude when their operands
    are. *)
Lemma padded_small (a b c : float) :
  moderate a -> moderate b -> small 0 (Prim2SF c) ->
  small 904 (Prim2SF (a - b * c)) /\ small 904 (Prim2SF (a + b + b * c)).
Proof.
  intros Ha Hb Hc.
  apply moderate_small in Ha, Hb.
  assert (Hp : small 901 (Prim2SF (b * c)))
    by (apply (mul_small 900 0); (lia || assumption)).
  split.
  - apply (small_mono 903); [lia | lia |].
    apply (sub_small 901); [lia | | exact Hp].
    apply (small_mono 900); [lia | lia | exact Ha].
  - apply (add_small 902); [lia | |].
    + apply (add_small 900); (lia || assumption).
    + apply (small_mono 901); [lia | lia | exact Hp].
Qed.

Lemma around_small (a r : float) :
  moderate a -> moderate r ->
  small 904 (Prim2SF (a - r)) /\ small 904 (Prim2SF (a + r)).
Proof.
  intros Ha Hr. apply moderate_small in Ha, Hr.
  split; apply (small_mono 902); try lia.
  - apply (sub_small 900); (lia || assumption).
  - apply (add_small 900); (lia || assumption).
Qed.

Lemma difference_number (a b : float) :
  small 904 (Prim2SF a) -> small 904 (Prim2SF b) -> is_nan (a - b) = false.
Proof.
  intros Ha Hb. apply (small_number 906). apply (sub_small 904); (lia || assumption).
Qed.

End FloatFacts.

(** ** Facts about exact numbers *)

Module NumberFacts.

Import JSNumber.

Lemma Qltb_lt (a b : Q) : Qltb a b = true <-> a < b.
Proof.
  unfold Qltb. rewrite negb_true_iff. split.
  - intros H. apply Qnot_le_lt. intros Hle.
    apply Qle_bool_iff in Hle. congruence.
  - intros H. destruct (Qle_bool b a) eqn:E; [|reflexivity].
    apply Qle_bool_iff in E. exfalso. apply (Qlt_not_le _ _ H E).
Qed.

Lemma Qltb_ge (a b : Q) : Qltb a b = false <-> b <= a.
Proof.
  unfold Qltb. rewrite negb_false_iff. apply Qle_bool_iff.
Qed.

(** Case analysis on a comparison, leaving the order fact as a hypothesis. *)
Ltac cases_lt a b :=
  let E := fresh "E" in
  destruct (Qltb a b) eqn:E;
  [apply Qltb_lt in E | apply Qltb_ge in E].

Lemma half_sum_between (a b : Q) : a <= b -> a <= (a + b) / 2 /\ (a + b) / 2 <= b.
Proof.
  intros H. assert (E : (a + b) / 2 == (a + b) * (1 # 2)) by (field).
  rewrite E. split; lra.
Qed.

End NumberFacts.

(** ** Facts about the guidance calculator *)

Module GuidanceFacts.

Import FaceDetection GuidanceSpec FloatFacts.

#[local] Open Scope float_scope.

(** The entry of an edge in the [overflows] array. *)
#[local] Abbreviation entry f o e :=
  {| Overflow.value := overflow f o e; Overflow.guidance := awayFrom e |}.

Lemma hd_insert {T : Type} (cmp : T -> T -> float) (d p e : T) (rest : list T) :
  hd d (Binary64.insert cmp p (e :: rest)) = if cmp p e <? 0 then p else e.
Proof. simpl. destruct (cmp p e <? 0); reflexivity. Qed.

Lemma insert_length {T : Type} (cmp : T -> T -> float) (p : T) (l : list T) :
  length (Binary64.insert cmp p l) = S (length l).
Proof.
  induction l as [|e rest IH]; simpl; [reflexivity|].
  destruct (cmp p e <? 0); simpl; congruence.
Qed.

Lemma sortedOverflows_length f o : length (sortedOverflows f o) = 4%nat.
Proof.
  unfold sortedOverflows, Binary64.sort, overflows. cbn [fold_left].
  rewrite !insert_length. reflexivity.
Qed.

(** The array that is sorted holds, edge by edge, the overflow of the padded
    head box beyond that edge and the move away from it. *)
Lemma overflows_edges f o :
  overflows f o =
  [entry f o LeftEdge; entry f o RightEdge; entry f o TopEdge; entry f o BottomEdge].
Proof. reflexivity. Qed.

(** The first entry after the sort is found by a left-to-right scan that
    replaces the candidate only by a strictly larger value. *)
Lemma largestOverflow_scan f o :
  largestOverflow f o =
  pick (pick (pick (entry f o LeftEdge) (entry f o RightEdge)) (entry f o TopEdge))
       (entry f o BottomEdge).
Proof.
  unfold largestOverflow, sortedOverflows, Binary64.sort. rewrite overflows_edges.
  cbn [fold_left].
  set (a := entry f o LeftEdge). set (b := entry f o RightEdge).
  set (c := entry f o TopEdge). set (d := entry f o BottomEdge).
  unfold pick. cbn [Binary64.insert].
  destruct (byValueDescending b a <? 0); cbn [Binary64.insert];
    destruct (byValueDescending c _ <? 0); cbn [Binary64.insert];
    destruct (byValueDescending d _ <? 0); reflexivity.
Qed.

(** The scan keeps the candidate unless the new entry has a larger value. *)
Lemma pick_larger (best p : Overflow.t) :
  pick best p = if Overflow.value best <? Overflow.value p then p else best.
Proof. unfold pick, byValueDescending. now rewrite ltb_sub_zero. Qed.

(** The scan ends on the entry of some edge. *)
Lemma largestOverflow_entry f o : exists e, largestOverflow f o = entry f o e.
Proof.
  rewrite largestOverflow_scan, !pick_larger.
  repeat match goal with
         | |- context [if ?c then _ else _] => destruct c
         end; eauto.
Qed.

(** The guidance while the size ratio is within the band. *)
Lemma calculateGuidance_in_band f o :
  withinBand f o ->
  calculateGuidance f o =
    if 0 <? Overflow.value (largestOverflow f o) then
      Overflow.guidance (largestOverflow f o)
    else if (0.15 <? offCentreX f o) || (0.15 <? offCentreY f o) then
      if offCentreX f o <? offCentreY f o then
        (if headCenterY f <? centerY o then move_down else move_up)
      else
        (if headCenterX f <? centerX o then move_right else move_left)
    else hold_still.
Proof.
  intros [Hlo Hhi]. unfold calculateGuidance.
  change (sizeRatio f o) with (ratio f o). now rewrite Hlo, Hhi.
Qed.

(** The scan of [largestOverflow_scan] ends on the first largest edge. *)
Lemma largestOverflow_largestFirst f o e :
  largestFirst f o e -> largestOverflow f o = entry f o e.
Proof.
  intros H. rewrite largestOverflow_scan.
  pose proof (H LeftEdge) as [HL HL'].
  pose proof (H RightEdge) as [HR HR'].
  pose proof (H TopEdge) as [HT HT'].
  pose proof (H BottomEdge) as [HB HB'].
  clear H.
  destruct e; cbn [listed] in *;
    repeat match goal with
      | Hh : (_ < _)%nat -> _ |- _ =>
          first [ specialize (Hh ltac:(lia)) | clear Hh ]
      end;
    set (l := overflow f o LeftEdge) in *; set (r := overflow f o RightEdge) in *;
    set (t := overflow f o TopEdge) in *; set (b := overflow f o BottomEdge) in *;
    clearbody l r t b;
    repeat (match goal with
            | |- context [pick (Overflow.Build_t ?u ?g) ?p] =>
                rewrite (pick_larger (Overflow.Build_t u g) p);
                cbn [Overflow.value]
            end;
            match goal with
            | |- context [if ?u <? ?v then _ else _] => destruct (u <? v) eqn:?
            end);
    try reflexivity; congruence.
Qed.

Lemma guidance_of_largestFirst f o e :
  withinBand f o -> (0 <? overflow f o e) = true -> largestFirst f o e ->
  calculateGuidance f o = awayFrom e.
Proof.
  intros Hband Hpos Hmax.
  rewrite (calculateGuidance_in_band _ _ Hband).
  rewrite (largestOverflow_largestFirst _ _ _ Hmax).
  cbn [Overflow.value Overflow.guidance]. now rewrite Hpos.
Qed.

(** When the four overflows are numbers, some edge is the first largest
    one. *)
Lemma largestFirst_exists f o :
  comparable f o -> exists e, largestFirst f o e.
Proof.
  intros Hn. unfold largestFirst.
  pose (z := fun e => Binary64.scaled (Prim2SF (overflow f o e))).
  assert (Hlt : forall e e',
            (overflow f o e <? overflow f o e') = (z e <? z e')%Z)
    by (intros e e'; apply ltb_scaled; apply Hn).
  clearbody z.
  assert (Hcase :
    (z RightEdge <= z LeftEdge /\ z TopEdge <= z LeftEdge
     /\ z BottomEdge <= z LeftEdge)%Z \/
    (z LeftEdge < z RightEdge /\ z TopEdge <= z RightEdge
     /\ z BottomEdge <= z RightEdge)%Z \/
    (z LeftEdge < z TopEdge /\ z RightEdge < z TopEdge
     /\ z BottomEdge <= z TopEdge)%Z \/
    (z LeftEdge < z BottomEdge /\ z RightEdge < z BottomEdge
     /\ z TopEdge < z BottomEdge)%Z) by lia.
  destruct Hcase as [H | [H | [H | H]]];
    [exists LeftEdge | exists RightEdge | exists TopEdge | exists BottomEdge];
    intros e'; rewrite !Hlt; destruct e'; cbn [listed];
    (split; [apply Z.ltb_ge; lia | intros Hb; apply Z.ltb_lt; lia]).
Qed.

(** The overflows of a frame with coordinates of moderate magnitude are
    numbers. *)
Lemma moderate_comparable f o : moderateFrame f o -> comparable f o.
Proof.
  intros ((Hx & Hw) & (Hy & Hh) & (Hcx & Hrx) & (Hcy & Hry)) e.
  assert (Hside : Binary64.small 0 (Prim2SF 0.10)) by (vm_compute; discriminate).
  assert (Htop : Binary64.small 0 (Prim2SF 0.40)) by (vm_compute; discriminate).
  assert (Hbot : Binary64.small 0 (Prim2SF 0.08)) by (vm_compute; discriminate).
  destruct (padded_small _ _ _ Hx Hw Hside) as [Hl Hr].
  destruct (padded_small _ _ _ Hy Hh Htop) as [Ht _].
  destruct (padded_small _ _ _ Hy Hh Hbot) as [_ Hb].
  destruct (around_small _ _ Hcx Hrx) as [Hol Hor].
  destruct (around_small _ _ Hcy Hry) as [Hot Hob].
  destruct e; cbn [overflow boundingRectangle paddedHead left right top bottom];
    now apply difference_number.
Qed.

(** C1: when the size ratio is within the band and some edge overflow is
    strictly positive, the guidance is the move away from the edge with the
    largest overflow; among edges tied for the largest, the first in the
    order left, right, top, bottom decides (left gives [move_right], right
    [move_left], top [move_down], bottom [move_up]).  The ratio and the
    overflows are the binary64 numbers that their definitions compute, and
    the four overflows are numbers (none is NaN), as they are whenever the
    coordinates are of moderate magnitude ([moderate_comparable]). *)
Theorem largest_overflow_decides f o :
  withinBand f o ->
  comparable f o ->
  (exists e, (0 <? overflow f o e) = true) ->
  exists e, (0 <? overflow f o e) = true /\ largestFirst f o e /\
            calculateGuidance f o = awayFrom e.
Proof.
  intros Hband Hn [e0 Hpos].
  destruct (largestFirst_exists f o Hn) as [e He].
  exists e.
  assert (Hpos' : (0 <? overflow f o e) = true).
  { destruct (He e0) as [Hle _].
    apply ltb_lt in Hpos. apply ltb_ge in Hle; try apply Hn.
    rewrite ltb_scaled by (reflexivity || apply Hn). apply Z.ltb_lt. lia. }
  split; [exact Hpos'|]. split; [exact He|].
  now apply guidance_of_largestFirst.
Qed.

Lemma largest_overflow_decides_witness :
  exists e, (0 <? overflow faceMid ovalMid e) = true /\
            largestFirst faceMid ovalMid e /\
            calculateGuidance faceMid ovalMid = awayFrom e.
Proof.
  apply (largest_overflow_decides faceMid ovalMid).
  - split; vm_compute; reflexivity.
  - intros e; destruct e; vm_compute; reflexivity.
  - exists TopEdge. vm_compute. reflexivity.
Defined.

(** Ties: a head taller than the oval and centred on it passes the top and
    the bottom edge by the same computed amount, and the top edge decides. *)
Example tie_goes_to_first_edge :
  (overflow faceTall ovalTall TopEdge =? overflow faceTall ovalTall BottomEdge) = true /\
  (0 <? overflow faceTall ovalTall TopEdge) = true /\
  calculateGuidance faceTall ovalTall = move_down.
Proof. repeat split; vm_compute; reflexivity. Qed.

(** The overflows that are compared are the rounded ones.  The padded head
    of [faceBetween] passes the left and the right edge of [ovalBetween] by
    a twentieth each; computed, the right overflow is the larger one, and
    the right edge decides.  The padded head of [facePixels] passes the
    right edge of [ovalPage] by more than the left one; computed, the two
    overflows are equal, and the left edge, listed first, decides. *)
Example rounding_decides_between_edges :
  (overflow faceBetween ovalBetween LeftEdge
   <? overflow faceBetween ovalBetween RightEdge) = true /\
  largestFirst faceBetween ovalBetween RightEdge /\
  calculateGuidance faceBetween ovalBetween = move_left /\
  (overflow facePixels ovalPage LeftEdge
   =? overflow facePixels ovalPage RightEdge) = true /\
  largestFirst facePixels ovalPage LeftEdge /\
  calculateGuidance facePixels ovalPage = move_right.
Proof.
  repeat split;
    first [ vm_compute; reflexivity
          | cbn [listed]; intros Hlt; lia
          | destruct e'; vm_compute; reflexivity
          | destruct e'; cbn [listed]; intros Hlt;
            first [lia | vm_compute; reflexivity] ].
Qed.






(** C6, as the code has it: when the size ratio is within the band and the
    padded head box passes an edge of the oval's bounding rectangle by more
    than it passes any other edge, the guidance is the move away from that
    edge.  The ratio and the overflows are the computed ones. *)
Theorem overflow_guidance_opposite f o e :
  withinBand f o ->
  (0 <? overflow f o e) = true ->
  (forall e', e' <> e -> (overflow f o e' <? overflow f o e) = true) ->
  calculateGuidance f o = awayFrom e.
Proof.
  intros Hband Hpos Hmax.
  apply guidance_of_largestFirst; try assumption.
  intros e'.
  assert (e' = e \/ e' <> e) as [-> | Hd]
    by (destruct e', e; (left; reflexivity) || (right; discriminate)).
  - split; [apply ltb_irrefl | lia].
  - specialize (Hmax e' Hd). split; [now apply ltb_asym | intros _; exact Hmax].
Qed.

Lemma overflow_guidance_opposite_witness :
  calculateGuidance faceHighLeft ovalMid = move_down.
Proof.
  apply (overflow_guidance_opposite faceHighLeft ovalMid TopEdge).
  - split; vm_compute; reflexivity.
  - vm_compute. reflexivity.
  - intros e' He'. destruct e'; try (vm_compute; reflexivity).
    contradiction He'. reflexivity.
Defined.

(** C6 as stated fails twice.  [faceSmallLeft] is beyond the left edge of
    [ovalMid] and gets [move_closer], not [move_right]: the size check comes
    first.  [faceHighLeft] is beyond the left edge too, and farther beyond
    the top edge: it gets [move_down], not [move_right]. *)
Lemma outside_edge_not_opposite :
  ((0 <? overflow faceSmallLeft ovalMid LeftEdge) = true /\
   calculateGuidance faceSmallLeft ovalMid = move_closer) /\
  ((0 <? overflow faceHighLeft ovalMid LeftEdge) = true /\
   withinBand faceHighLeft ovalMid /\
   calculateGuidance faceHighLeft ovalMid = move_down).
Proof.
  repeat split; vm_compute; reflexivity.
Qed.

End GuidanceFacts.

(** ** Facts about [detectFace] *)

Module DetectFacts.

Import JSPromise FaceDetection DetectSpec.

Section Detect.
Context {Model : Type}.
Variable platform : Platform Model.

(** [initialize] has its own [try]/[catch] and never rejects. *)
Lemma initialize_resolves (this : FaceDetectionWeb Model) :
  exists success, snd (initialize platform this) = Resolved success.
Proof.
  unfold initialize. destruct (model this); [cbn; eauto|].
  destruct (isInitializing this); [cbn; eauto|].
  match goal with
  | |- context [loadScripts platform ?t] =>
      destruct (loadScripts platform t) as [this2 scripts]
  end.
  destruct (await scripts _); cbn; eauto.
Qed.

(** A successful initialisation leaves a model in place. *)
Lemma initialize_success_model (this : FaceDetectionWeb Model) :
  snd (initialize platform this) = Resolved true ->
  exists m, model (fst (initialize platform this)) = Some m.
Proof.
  unfold initialize. destruct (model this) eqn:Em; [cbn; eauto|].
  destruct (isInitializing this).
  - cbn. destruct (model (waitForModel platform this)); [eauto|discriminate].
  - match goal with
    | |- context [loadScripts platform ?t] =>
        destruct (loadScripts platform t) as [this2 scripts]
    end.
    destruct (await scripts _); cbn; [eauto|discriminate].
Qed.

(** [detectFace] runs its [try] block on [afterInitialize] unless the
    initialisation reports a failure. *)
Lemma detectFace_attempt (this : FaceDetectionWeb Model) options :
  snd (detectFace platform this options) =
    match model this with
    | Some _ => tryCatch (detect platform this options) (fun _ => Resolved noFace)
    | None =>
        match snd (initialize platform this) with
        | Resolved true =>
            tryCatch (detect platform (afterInitialize platform this) options)
                     (fun _ => Resolved noFace)
        | Resolved false => Resolved noFace
        | Rejected e => Rejected e
        end
    end.
Proof.
  unfold detectFace, afterInitialize. destruct (model this); [reflexivity|].
  destruct (initialize platform this) as [this' [[|]|e]]; reflexivity.
Qed.

(** [detectFace] never rejects. *)
Lemma detectFace_resolves (this : FaceDetectionWeb Model) options :
  exists result, snd (detectFace platform this options) = Resolved result.
Proof.
  rewrite detectFace_attempt.
  assert (Htry : forall body : Promise FaceDetectionResult,
             exists result, tryCatch body (fun _ => Resolved noFace) = Resolved result).
  { intros [r | e]; cbn; eauto. }
  destruct (model this); [apply Htry|].
  destruct (initialize_resolves this) as [[|] ->]; [apply Htry | eauto].
Qed.

(** An error thrown in the [try] block ends in the safe default. *)
Lemma detect_throws_no_face (this : FaceDetectionWeb Model) options e :
  detect platform (afterInitialize platform this) options = Rejected e ->
  snd (detectFace platform this options) = Resolved noFace.
Proof.
  rewrite detectFace_attempt. unfold afterInitialize.
  destruct (model this) as [m|].
  - intros ->. reflexivity.
  - destruct (initialize_resolves this) as [[|] ->]; [|reflexivity].
    intros ->. reflexivity.
Qed.

(** C7: when the initialisation of the model fails, the model is not
    available, the frame cannot be decoded or the estimation throws,
    [detectFace] resolves with [faceDetected = false] and
    [guidance = no_face]; the error does not reach the caller. *)
Theorem detection_failure_is_no_face (this : FaceDetectionWeb Model) options :
  DetectionFails platform this options ->
  snd (detectFace platform this options) = Resolved noFace /\
  faceDetected noFace = false /\ guidance noFace = no_face.
Proof.
  intros Hfail. split; [|split; reflexivity].
  destruct Hfail as [Hnone Hinit | Hnone | e Himg | m img e Hm Himg Hest].
  - rewrite detectFace_attempt. now rewrite Hnone, Hinit.
  - destruct (loadImage platform (imageData options)) as [img | e] eqn:Himg.
    + apply (detect_throws_no_face _ _ TypeError).
      unfold detect. rewrite Himg, Hnone. reflexivity.
    + apply (detect_throws_no_face _ _ e).
      unfold detect. rewrite Himg. reflexivity.
  - apply (detect_throws_no_face _ _ e). unfold detect. now rewrite Himg.
  - apply (detect_throws_no_face _ _ e).
    unfold detect. rewrite Himg, Hm. cbn. now rewrite Hest.
Qed.

(** C10: [detectFace] reads [imageData] and [ovalBounds] only; two calls
    whose options differ in [sensitivity] alone leave the same plugin and
    resolve with the same result. *)
Theorem detectFace_ignores_sensitivity (this : FaceDetectionWeb Model) o1 o2 :
  imageData o1 = imageData o2 ->
  ovalBounds o1 = ovalBounds o2 ->
  detectFace platform this o1 = detectFace platform this o2.
Proof.
  intros Himg Hoval. unfold detectFace, detect.
  now rewrite Himg, Hoval.
Qed.
End Detect.

Lemma detection_failure_is_no_face_witness :
  snd (detectFace offline freshPlugin (frame None)) = Resolved noFace /\
  snd (detectFace faultyModel freshPlugin (frame None)) = Resolved noFace.
Proof.
  split.
  - apply (detection_failure_is_no_face offline freshPlugin (frame None)).
    apply InitializationFails; reflexivity.
  - apply (detection_failure_is_no_face faultyModel freshPlugin (frame None)).
    eapply EstimateFails; reflexivity.
Defined.

Lemma detectFace_ignores_sensitivity_witness :
  detectFace oneFace freshPlugin (frame (Some 0%float)) =
  detectFace oneFace freshPlugin (frame (Some 1%float)).
Proof.
  apply (detectFace_ignores_sensitivity oneFace freshPlugin); reflexivity.
Defined.

(** The frame of [oneFace] is [faceMid], and the guidance is computed. *)
Example oneFace_detected :
  exists r, snd (detectFace oneFace freshPlugin (frame None)) = Resolved r /\
            faceDetected r = true /\ guidance r = move_down /\
            confidence r = Some 0.97%float.
Proof. eexists. repeat split. Qed.

End DetectFacts.

(** ** Facts about [compressImage] *)

Module CompressFacts.

Import JSNumber JSPromise ImageProcessing CompressSpec NumberFacts.

Section Loop.
Context {Blob : Type}.
Variable blobSize : Blob -> N.
Variable encode : Q -> Promise Blob.
Variable targetBytes : Q.

#[local] Abbreviation iteration := (iteration blobSize encode targetBytes).
#[local] Abbreviation forLoop := (forLoop blobSize encode targetBytes).
#[local] Abbreviation distance := (distance blobSize targetBytes).
#[local] Abbreviation next s b :=
  (adjust blobSize targetBytes (keepBest blobSize targetBytes s b) b).

(** One unfolding of the loop, by the outcome of the encoder call. *)
Lemma forLoop_step (n : nat) (s : Search Blob) :
  forLoop (S n) s =
    match encode (quality s) with
    | Rejected e => (inr e, [(quality s, Rejected e)])
    | Resolved b =>
        if Qltb (distance b) tolerance then
          (inl (setBest s b), [(quality s, Resolved b)])
        else
          let (outcome, calls) := forLoop n (next s b) in
          (outcome, (quality s, Resolved b) :: calls)
    end.
Proof.
  cbn [ImageProcessing.forLoop]. unfold ImageProcessing.iteration.
  destruct (encode (quality s)) as [b | e]; [|reflexivity].
  destruct (Qltb (distance b) tolerance); reflexivity.
Qed.


(** Case analysis on the first pass of a loop of [S n] passes. *)
Ltac first_pass s b e E :=
  rewrite forLoop_step;
  destruct (encode (quality s)) as [b | e];
  [ destruct (Qltb (distance b) tolerance) eqn:E;
    [ | let o := fresh "outcome" in
        let c := fresh "calls" in
        destruct (forLoop _ (next s b)) as [o c] eqn:?; cbn [fst snd] in * ]
  | ].


(** [keepBest] leaves the three qualities alone. *)
Lemma keepBest_qualities (s : Search Blob) (b : Blob) :
  minQuality (keepBest blobSize targetBytes s b) = minQuality s /\
  quality (keepBest blobSize targetBytes s b) = quality s /\
  maxQuality (keepBest blobSize targetBytes s b) = maxQuality s.
Proof.
  unfold keepBest, setBest. destruct (bestBlob s) as [best|]; [|now cbn].
  destruct (Qltb (distance b) (distance best)); now cbn.
Qed.

(** The adjustment halves the interval around the new quality. *)
Lemma next_ordered (s : Search Blob) (b : Blob) :
  ordered s -> ordered (next s b).
Proof.
  unfold ordered. intros [Hlo Hhi].
  destruct (keepBest_qualities s b) as (Emin & Eq & Emax).
  unfold adjust. destruct (Qltb targetBytes (bytes blobSize b)); cbn;
    rewrite ?Emin, ?Eq, ?Emax.
  - destruct (half_sum_between _ _ Hlo). split; assumption.
  - destruct (half_sum_between _ _ Hhi) as [H1 H2].
    assert (E : (maxQuality s + quality s) / 2 == (quality s + maxQuality s) / 2)
      by (field).
    rewrite E. split; assumption.
Qed.

Lemma next_inRange (s : Search Blob) (b : Blob) :
  inRange s -> inRange (next s b).
Proof.
  intros (Hmin & Hord & Hmax).
  pose proof (next_ordered s b Hord) as Hord'.
  destruct Hord as [Hlo Hhi].
  destruct (keepBest_qualities s b) as (Emin & Eq & Emax).
  split; [|split; [exact Hord'|]].
  - unfold adjust. destruct (Qltb targetBytes (bytes blobSize b)); cbn;
      rewrite ?Emin, ?Eq; lra.
  - unfold adjust. destruct (Qltb targetBytes (bytes blobSize b)); cbn;
      rewrite ?Emax, ?Eq; lra.
Qed.

Lemma iteration_ordered (s s' : Search Blob) :
  ordered s -> iteration s = Continue s' -> ordered s'.
Proof.
  intros Hord. unfold ImageProcessing.iteration.
  destruct (encode (quality s)) as [b | e]; [|discriminate].
  destruct (Qltb (distance b) tolerance); [discriminate|].
  intros [= <-]. now apply next_ordered.
Qed.

(** Every quality passed to the encoder is within the range. *)
Lemma forLoop_qualities (n : nat) (s : Search Blob) :
  inRange s ->
  Forall (fun call => 0.10 <= fst call /\ fst call <= 0.95) (snd (forLoop n s)).
Proof.
  revert s. induction n as [|n IH]; intros s Hs; [constructor|].
  assert (Hq : 0.10 <= quality s /\ quality s <= 0.95).
  { destruct Hs as (Hmin & [Hlo Hhi] & Hmax). split; lra. }
  pose proof (fun b => IH (next s b) (next_inRange s b Hs)) as IH'.
  first_pass s b e E; cbn [fst snd].
  - repeat constructor; apply Hq.
  - constructor; [exact Hq|]. specialize (IH' b). now rewrite Heqp in IH'.
  - repeat constructor; apply Hq.
Qed.

(** The best encoding after a pass that continues. *)
Lemma next_bestBlob (s : Search Blob) (b : Blob) :
  bestBlob (next s b) =
    match bestBlob s with
    | None => Some b
    | Some best => if Qltb (distance b) (distance best) then Some b else Some best
    end.
Proof.
  unfold adjust, keepBest, setBest.
  destruct (bestBlob s) as [best|] eqn:Eb.
  - destruct (Qltb (distance b) (distance best));
      destruct (Qltb targetBytes _); cbn; congruence.
  - destruct (Qltb targetBytes _); reflexivity.
Qed.






(** After at least one pass that does not throw there is a best encoding. *)
Lemma forLoop_best_defined (n : nat) (s s' : Search Blob) calls :
  forLoop (S n) s = (inl s', calls) -> bestBlob s' <> None.
Proof.
  revert s calls. induction n as [|n IH]; intros s calls.
  - rewrite forLoop_step. destruct (encode (quality s)) as [b | e]; [|discriminate].
    destruct (Qltb (distance b) tolerance).
    + intros [= <- _]. discriminate.
    + cbn. intros [= <- _]. rewrite next_bestBlob.
      destruct (bestBlob s) as [best|]; [|discriminate].
      destruct (Qltb (distance b) (distance best)); discriminate.
  - rewrite forLoop_step. destruct (encode (quality s)) as [b | e]; [|discriminate].
    destruct (Qltb (distance b) tolerance).
    + intros [= <- _]. discriminate.
    + destruct (forLoop (S n) (next s b)) as [outcome calls'] eqn:El.
      intros [= -> _]. eapply IH. eassumption.
Qed.

(** A loop that ends normally without an encoding made no pass. *)
Lemma forLoop_no_encoding (n : nat) (s s' : Search Blob) calls :
  forLoop n s = (inl s', calls) -> produced calls = [] -> s' = s.
Proof.
  destruct n as [|n]; [now intros [= <- _]|].
  first_pass s b e E.
  - intros [= _ <-]. discriminate.
  - intros [= _ <-]. discriminate.
  - discriminate.
Qed.

End Loop.

Section Service.
Context {Blob : Type}.
Variable blobSize : Blob -> N.
Variable platform : Platform Blob.

#[local] Abbreviation compressImage := (compressImage blobSize platform).
#[local] Abbreviation compressImageWithin := (compressImageWithin blobSize platform).
#[local] Abbreviation search img kb n :=
  (forLoop blobSize (canvasToBlob platform img) (orTen kb * 1024) n initialSearch).

(** The encoder calls of [compressImage] are those of its loop, if any. *)
Lemma compressImageWithin_calls (n : nat) (url : string) (kb : option Q) :
  snd (compressImageWithin n url kb) = [] \/
  exists img, snd (compressImageWithin n url kb) = snd (search img kb n).
Proof.
  unfold ImageProcessing.compressImageWithin.
  destruct (loadImage platform url) as [img | e]; [|now left].
  destruct (context2d platform); [|now left]. right. exists img. cbn.
  destruct (search img kb n) as [[s | e] calls]; reflexivity.
Qed.

Lemma initialSearch_inRange : inRange (@initialSearch Blob).
Proof. unfold inRange, ordered. cbn. lra. Qed.




(** C8: when no encoding has been produced, [compressImage] rejects; when
    its loop has run through its bound without one, the rejection is the
    error 'Failed to compress image'. *)
Theorem no_encoding_is_an_error (n : nat) (url : string) (kb : option Q) :
  produced (snd (compressImageWithin n url kb)) = [] ->
  (exists e, fst (compressImageWithin n url kb) = Rejected e) /\
  (forall img s calls,
     loadImage platform url = Resolved img ->
     context2d platform = true ->
     search img kb n = (inl s, calls) ->
     fst (compressImageWithin n url kb) =
       Rejected (Error "Failed to compress image")).
Proof.
  unfold ImageProcessing.compressImageWithin.
  destruct (loadImage platform url) as [img | e].
  2:{ intros _. split; [cbn; eauto|]. intros; discriminate. }
  destruct (context2d platform).
  2:{ intros _. split; [cbn; eauto|]. intros; discriminate. }
  cbn [negb]. destruct (search img kb n) as [[s | e] calls] eqn:Hloop; cbn [fst snd].
  - intros Hnone.
    assert (Hs : s = initialSearch) by (eapply forLoop_no_encoding; eassumption).
    subst s. cbn. split; [eauto|]. reflexivity.
  - intros _. split; [eauto|].
    intros img' s calls' [= <-] _. rewrite Hloop. discriminate.
Qed.

(** C9: every pass through the loop keeps
    [minQuality <= quality <= maxQuality], which holds at the start, and
    every quality passed to the encoder is within [0.10, 0.95]. *)
Theorem quality_stays_in_range (url : string) (kb : option Q) :
  (forall encode targetBytes (s s' : Search Blob),
     ordered s ->
     iteration blobSize encode targetBytes s = Continue s' ->
     ordered s') /\
  ordered (@initialSearch Blob) /\
  Forall (fun call => 0.10 <= fst call /\ fst call <= 0.95)
         (snd (compressImage url kb)).
Proof.
  split; [|split].
  - intros encode targetBytes s s'. apply iteration_ordered.
  - apply initialSearch_inRange.
  - unfold ImageProcessing.compressImage.
    destruct (compressImageWithin_calls 8 url kb) as [-> | [img ->]].
    + constructor.
    + apply forLoop_qualities, initialSearch_inRange.
Qed.

(** With the bound of 8 the loop never ends normally without a best
    encoding: the error after the loop is a guard. *)
Lemma compressImage_best_defined (kb : option Q) (img : HTMLImageElement) s calls :
  search img kb 8 = (inl s, calls) -> bestBlob s <> None.
Proof. apply forLoop_best_defined. Qed.
End Service.

(** The search on [linearSize] for the default 10 KB: 14000 bytes at 0.70,
    8000 at 0.40, 11000 at 0.55, which is 760 bytes from the target. *)
Example linear_search :
  compressImage byteCount (healthy linearSize true) "" None =
    (Resolved {| dataUrl := "data:image/jpeg;base64,";
                 blob := 11000%N; size := 11000%N |},
     [ (0.70, Resolved 14000%N);
       (8000 # 20000, Resolved 8000%N);
       (2200000 # 4000000, Resolved 11000%N) ]).
Proof. vm_compute. reflexivity. Qed.

(** With [twoSizes] every encoding is 2240 bytes from the target; the loop
    runs 8 times and the first encoding is returned. *)
Example tie_keeps_first :
  exists calls,
    compressImage byteCount (healthy twoSizes true) "" None =
      (Resolved {| dataUrl := "data:image/jpeg;base64,";
                   blob := 12480%N; size := 12480%N |}, calls) /\
    length calls = 8%nat /\
    map snd (firstn 2 calls) = [Resolved 12480%N; Resolved 8000%N].
Proof. eexists. vm_compute. repeat split. Qed.

(** An encoder failure rejects with the encoder's error at the first call. *)
Example encoder_failure_rejects :
  compressImage byteCount unencodable "" None =
    (Rejected (Error "Failed to create blob"),
     [(0.70, Rejected (Error "Failed to create blob"))]).
Proof. vm_compute. reflexivity. Qed.



Lemma no_encoding_is_an_error_witness :
  fst (compressImageWithin byteCount (healthy linearSize true) 0 "" None) =
    Rejected (Error "Failed to compress image") /\
  exists e, fst (compressImage byteCount unencodable "" None) = Rejected e.
Proof.
  split.
  - refine (proj2 (no_encoding_is_an_error byteCount (healthy linearSize true)
                     0 "" None _) {| img_width := 256; img_height := 256 |}
                  initialSearch [] _ _ _); reflexivity.
  - apply (no_encoding_is_an_error byteCount unencodable 8 "" None). reflexivity.
Defined.

Lemma quality_stays_in_range_witness :
  ordered (adjust byteCount (10 * 1024)
             (keepBest byteCount (10 * 1024) initialSearch 14000%N) 14000%N).
Proof.
  refine (proj1 (quality_stays_in_range byteCount (healthy linearSize true) "" None)
            (fun q => Resolved (linearSize q)) (10 * 1024) initialSearch _ _ _).
  - unfold ordered. cbn. lra.
  - vm_compute. reflexivity.
Defined.

End CompressFacts.

(** ** More facts about the web guidance calculator *)

Module GuidanceMore.

Import FaceDetection GuidanceSpec MoreSpec FloatFacts GuidanceFacts.

#[local] Open Scope float_scope.

(** The answers of the calculator. *)
Lemma calculateGuidance_values f o :
  In (calculateGuidance f o)
     [move_closer; move_back; move_left; move_right; move_up; move_down; hold_still].
Proof.
  unfold calculateGuidance.
  destruct (largestOverflow_entry f o) as [e ->].
  cbn [Overflow.value Overflow.guidance].
  destruct (sizeRatio f o <? 0.8); [cbn; tauto|].
  destruct (1.15 <? sizeRatio f o); [cbn; tauto|].
  destruct (0 <? overflow f o e); [destruct e; cbn; tauto|].
  destruct ((centerThreshold <? xOffset f o) || (centerThreshold <? yOffset f o));
    [|cbn; tauto].
  destruct (xOffset f o <? yOffset f o).
  - destruct (faceCenterY f <? centerY o); cbn; tauto.
  - destruct (faceCenterX f <? centerX o); cbn; tauto.
Qed.

(** X1: the calculator never answers [no_face] or [multiple_faces]; those
    two are left to [detectFace]. *)
Theorem calculateGuidance_is_a_move f o :
  calculateGuidance f o <> no_face /\ calculateGuidance f o <> multiple_faces.
Proof.
  pose proof (calculateGuidance_values f o) as H.
  split; intros E; rewrite E in H; cbn in H;
    repeat (destruct H as [H | H]; [discriminate|]); exact H.
Qed.

(** With no positive overflow the scan ends on a value that is not
    positive. *)
Lemma largestOverflow_not_positive f o :
  (forall e, (0 <? overflow f o e) = false) ->
  (0 <? Overflow.value (largestOverflow f o)) = false.
Proof.
  intros H. destruct (largestOverflow_entry f o) as [e ->]. apply H.
Qed.

(** What [hold_still] requires. *)
Lemma hold_still_requires f o :
  comparable f o ->
  calculateGuidance f o = hold_still ->
  withinBand f o /\ (forall e, (0 <? overflow f o e) = false) /\
  (0.15 <? offCentreX f o) = false /\ (0.15 <? offCentreY f o) = false.
Proof.
  intros Hn Hhold.
  assert (Hband : withinBand f o).
  { unfold withinBand. revert Hhold. unfold calculateGuidance.
    change (sizeRatio f o) with (ratio f o).
    destruct (ratio f o <? 0.8); [discriminate|].
    destruct (1.15 <? ratio f o); [discriminate|]. now split. }
  split; [exact Hband|].
  rewrite (calculateGuidance_in_band _ _ Hband) in Hhold.
  destruct (largestFirst_exists f o Hn) as [e He].
  rewrite (largestOverflow_largestFirst _ _ _ He) in Hhold.
  cbn [Overflow.value Overflow.guidance] in Hhold.
  destruct (0 <? overflow f o e) eqn:Hp; [destruct e; discriminate|].
  split.
  { intros e'. destruct (He e') as [Hle _].
    destruct (0 <? overflow f o e') eqn:Hp'; [|reflexivity].
    apply ltb_lt in Hp'.
    apply ltb_ge in Hle; try apply Hn.
    apply ltb_ge in Hp; try apply Hn; [|reflexivity]. lia. }
  destruct (0.15 <? offCentreX f o); cbn [orb] in Hhold.
  { destruct (offCentreX f o <? offCentreY f o);
      [destruct (headCenterY f <? centerY o)
      |destruct (headCenterX f <? centerX o)]; discriminate. }
  destruct (0.15 <? offCentreY f o).
  { destruct (offCentreX f o <? offCentreY f o);
      [destruct (headCenterY f <? centerY o)
      |destruct (headCenterX f <? centerX o)]; discriminate. }
  now split.
Qed.

(** X2: as long as the four overflows are numbers, [hold_still] is answered
    exactly when the size ratio is within the band, the padded head passes
    no edge of the oval's bounding rectangle, and its centre is not more
    than 0.15 from the oval's centre on either axis; all of them as
    computed. *)
Theorem hold_still_iff f o :
  comparable f o ->
  (calculateGuidance f o = hold_still <->
   withinBand f o /\ (forall e, (0 <? overflow f o e) = false) /\
   (0.15 <? offCentreX f o) = false /\ (0.15 <? offCentreY f o) = false).
Proof.
  intros Hn. split; [now apply hold_still_requires|].
  intros (Hband & Hin & Hx & Hy).
  rewrite (calculateGuidance_in_band _ _ Hband).
  rewrite (largestOverflow_not_positive _ _ Hin).
  now rewrite Hx, Hy.
Qed.

Lemma hold_still_iff_witness :
  calculateGuidance faceTall ovalWide = hold_still.
Proof.
  apply (proj2 (hold_still_iff faceTall ovalWide
                  ltac:(intros e; destruct e; vm_compute; reflexivity))).
  split; [split; vm_compute; reflexivity|].
  split; [intros e; destruct e; vm_compute; reflexivity|].
  split; vm_compute; reflexivity.
Defined.



End GuidanceMore.

(** ** More facts about the web plugin *)

Module DetectMore.

Import JSPromise FaceDetection FaceDetectionMore DetectSpec MoreSpec.
Import DetectFacts GuidanceMore.

Section Plugin.
Context {Model : Type}.
Variable platform : Platform Model.

(** What the [try] block resolves with. *)
Lemma detect_results (this : FaceDetectionWeb Model) options r :
  detect platform this options = Resolved r ->
  r = noFace \/ r = multipleFaces \/
  exists b c,
    r = {| faceDetected := true; bounds := Some b;
           guidance := calculateGuidance b (ovalBounds options);
           confidence := Some c |}.
Proof.
  unfold detect.
  destruct (loadImage platform (imageData options)) as [img | e]; [|discriminate].
  cbn [await]. destruct (model this) as [m|]; [|discriminate].
  destruct (estimateFaces platform m img) as [[[|p [|p' ps]]|] | e]; cbn [await];
    try discriminate; intros [= <-]; eauto.
Qed.

Lemma detectFace_results (this : FaceDetectionWeb Model) options r :
  snd (detectFace platform this options) = Resolved r ->
  r = noFace \/ r = multipleFaces \/
  exists b c,
    r = {| faceDetected := true; bounds := Some b;
           guidance := calculateGuidance b (ovalBounds options);
           confidence := Some c |}.
Proof.
  rewrite detectFace_attempt.
  assert (Htry : forall this',
            tryCatch (detect platform this' options) (fun _ => Resolved noFace)
              = Resolved r ->
            r = noFace \/ r = multipleFaces \/
            exists b c,
              r = {| faceDetected := true; bounds := Some b;
                     guidance := calculateGuidance b (ovalBounds options);
                     confidence := Some c |}).
  { intros this'. destruct (detect platform this' options) as [r' | e] eqn:Hd; cbn.
    - intros [= <-]. eapply detect_results; eassumption.
    - intros [= <-]. now left. }
  destruct (model this); [apply Htry|].
  destruct (snd (initialize platform this)) as [[|] | e];
    [apply Htry | intros [= <-]; now left | discriminate].
Qed.

(** X6: in every result of [detectFace], [faceDetected] is false exactly
    when the guidance is [no_face], and [bounds] and [confidence] are
    present exactly when the guidance is a move or [hold_still]. *)
Theorem detectFace_result_consistent (this : FaceDetectionWeb Model) options r :
  snd (detectFace platform this options) = Resolved r ->
  (faceDetected r = false <-> guidance r = no_face) /\
  (bounds r = None <-> guidance r = no_face \/ guidance r = multiple_faces) /\
  (confidence r = None <-> bounds r = None).
Proof.
  intros Hr.
  destruct (detectFace_results this options r Hr) as [-> | [-> | (b & c & ->)]];
    cbn.
  - repeat split; auto.
  - repeat split; auto; discriminate.
  - pose proof (calculateGuidance_values b (ovalBounds options)) as Hv.
    assert (Hn : calculateGuidance b (ovalBounds options) <> no_face).
    { intros E. rewrite E in Hv. cbn in Hv.
      repeat (destruct Hv as [Hv | Hv]; [discriminate|]). exact Hv. }
    assert (Hm : calculateGuidance b (ovalBounds options) <> multiple_faces).
    { intros E. rewrite E in Hv. cbn in Hv.
      repeat (destruct Hv as [Hv | Hv]; [discriminate|]). exact Hv. }
    repeat split; try discriminate; try contradiction.
    intros [H | H]; contradiction.
Qed.

(** X8: [detectFace] never rejects, and a plugin that holds a model is
    left as it is. *)
Theorem detectFace_never_rejects (this : FaceDetectionWeb Model) options :
  (exists r, snd (detectFace platform this options) = Resolved r) /\
  (model this <> None -> fst (detectFace platform this options) = this).
Proof.
  split; [apply detectFace_resolves|].
  unfold detectFace. destruct (model this); [reflexivity|].
  intros H. now contradiction H.
Qed.

(** [loadScripts] does not touch the model or the initialising flag. *)
Lemma loadScripts_keeps (this : FaceDetectionWeb Model) :
  model (fst (loadScripts platform this)) = model this /\
  isInitializing (fst (loadScripts platform this)) = isInitializing this.
Proof.
  unfold loadScripts. destruct (scriptsLoaded this); [now split|].
  destruct (globalsDefined platform); [now split|].
  destruct (loadScript platform tfjsUrl); [|now split].
  destruct (loadScript platform blazefaceUrl); now split.
Qed.

(** Scripts that resolved are marked as loaded. *)
Lemma loadScripts_resolved (this : FaceDetectionWeb Model) :
  snd (loadScripts platform this) = Resolved tt ->
  scriptsLoaded (fst (loadScripts platform this)) = true.
Proof.
  unfold loadScripts. destruct (scriptsLoaded this) eqn:E; [now cbn|].
  destruct (globalsDefined platform); [now cbn|].
  destruct (loadScript platform tfjsUrl); [|discriminate].
  destruct (loadScript platform blazefaceUrl); [now cbn|discriminate].
Qed.

(** X9: [initialize] never rejects, and reports success exactly when it
    leaves a model in the plugin. *)
Theorem initialize_reports_model (this : FaceDetectionWeb Model) :
  snd (initialize platform this) =
    Resolved (match model (fst (initialize platform this)) with
              | Some _ => true
              | None => false
              end).
Proof.
  unfold initialize. destruct (model this) eqn:Em; [cbn; now rewrite Em|].
  destruct (isInitializing this); [reflexivity|].
  match goal with
  | |- context [loadScripts platform ?t] =>
      pose proof (loadScripts_keeps t) as [Hmodel _];
      destruct (loadScripts platform t) as [this2 scripts]
  end.
  cbn [fst model] in Hmodel.
  destruct (await scripts _); cbn; [reflexivity|]. now rewrite Hmodel.
Qed.

(** X10: a call of [initialize] on a plugin that is not initialising leaves
    it not initialising, whether the model loads or not. *)
Theorem initialize_resets_flag (this : FaceDetectionWeb Model) :
  isInitializing this = false ->
  isInitializing (fst (initialize platform this)) = false.
Proof.
  intros Hflag. unfold initialize. destruct (model this); [exact Hflag|].
  rewrite Hflag.
  match goal with
  | |- context [loadScripts platform ?t] =>
      destruct (loadScripts platform t) as [this2 scripts]
  end.
  destruct (await scripts _); reflexivity.
Qed.

(** A successful initialisation by the plugin itself leaves a model, the
    scripts marked as loaded and the flag down. *)
Lemma initialize_fresh_success (this : FaceDetectionWeb Model) :
  model this = None -> isInitializing this = false ->
  snd (initialize platform this) = Resolved true ->
  exists m, fst (initialize platform this) =
    {| model := Some m; isInitializing := false; scriptsLoaded := true |}.
Proof.
  intros Hm Hflag. unfold initialize. rewrite Hm, Hflag.
  match goal with
  | |- context [loadScripts platform ?t] =>
      pose proof (loadScripts_resolved t) as Hs;
      destruct (loadScripts platform t) as [this2 [[]|e]]
  end; cbn [fst snd await] in *.
  - destruct (blazefaceLoad platform) as [m | e]; cbn; [|discriminate].
    intros _. exists m. now rewrite Hs.
  - discriminate.
Qed.
End Plugin.

Section Again.
Context {Model : Type}.
Variables platform platform' : Platform Model.

(** X11: once [initialize] has succeeded, a further [initialize] succeeds
    at once and changes nothing, whatever the platform does by then. *)
Theorem initialize_idempotent (this : FaceDetectionWeb Model) :
  snd (initialize platform this) = Resolved true ->
  initialize platform' (fst (initialize platform this)) =
    (fst (initialize platform this), Resolved true).
Proof.
  intros Hok. destruct (initialize_success_model platform this Hok) as [m Hm].
  unfold initialize at 1. now rewrite Hm.
Qed.

(** X12: after a successful initialisation of a fresh plugin, [dispose]
    drops the model, and the next [initialize] does not load the scripts
    again: it succeeds exactly when [blazeface.load()] resolves. *)
Theorem reinitialize_after_dispose (this : FaceDetectionWeb Model) :
  model this = None -> isInitializing this = false ->
  snd (initialize platform this) = Resolved true ->
  let disposed := fst (dispose (fst (initialize platform this))) in
  model disposed = None /\
  snd (initialize platform' disposed) =
    Resolved (match blazefaceLoad platform' with
              | Resolved _ => true
              | Rejected _ => false
              end).
Proof.
  intros Hm Hflag Hok disposed.
  destruct (initialize_fresh_success platform this Hm Hflag Hok) as [m Hthis].
  subst disposed. rewrite Hthis. cbn [dispose model fst].
  split; [reflexivity|].
  unfold initialize, loadScripts. cbn [model isInitializing scriptsLoaded await].
  destruct (blazefaceLoad platform'); reflexivity.
Qed.
End Again.

Lemma detectFace_never_rejects_witness :
  fst (detectFace faultyModel loadedPlugin (frame None)) = loadedPlugin.
Proof.
  apply (detectFace_never_rejects faultyModel loadedPlugin (frame None)).
  discriminate.
Defined.

Lemma detectFace_result_consistent_witness :
  (faceDetected noFace = false <-> guidance noFace = no_face) /\
  (bounds noFace = None <-> guidance noFace = no_face \/ guidance noFace = multiple_faces) /\
  (confidence noFace = None <-> bounds noFace = None).
Proof.
  apply (detectFace_result_consistent offline freshPlugin (frame None) noFace).
  reflexivity.
Defined.

Lemma initialize_resets_flag_witness :
  isInitializing (fst (initialize offline freshPlugin)) = false.
Proof.
  apply (initialize_resets_flag offline freshPlugin). reflexivity.
Defined.

Lemma initialize_idempotent_witness :
  initialize offline (fst (initialize oneFace freshPlugin)) =
    (fst (initialize oneFace freshPlugin), Resolved true).
Proof.
  apply (initialize_idempotent oneFace offline freshPlugin). reflexivity.
Defined.

Lemma reinitialize_after_dispose_witness :
  model (fst (dispose (fst (initialize oneFace freshPlugin)))) = None /\
  snd (initialize faultyModel (fst (dispose (fst (initialize oneFace freshPlugin))))) =
    Resolved true.
Proof.
  apply (reinitialize_after_dispose oneFace faultyModel freshPlugin); reflexivity.
Defined.

End DetectMore.

(** ** Facts about the guidance calculator of the native plugins *)

Module NativeFacts.

Import JSNumber FaceDetection NativeGuidance MoreSpec NumberFacts.

Section Native.
Variables faceX faceY faceWidth faceHeight : Q.
Variable o : OvalBounds.

#[local] Abbreviation guidance :=
  (NativeGuidance.calculateGuidance faceX faceY faceWidth faceHeight o).
#[local] Abbreviation ratio := (NativeGuidance.sizeRatio faceWidth faceHeight o).


End Native.


End NativeFacts.

(** ** More facts about [compressImage] *)

Module CompressMore.

Import JSNumber JSPromise ImageProcessing CompressSpec MoreSpec.
Import NumberFacts CompressFacts.

Section Loop.
Context {Blob : Type}.
Variable blobSize : Blob -> N.
Variable encode : Q -> Promise Blob.
Variable targetBytes : Q.

#[local] Abbreviation forLoop := (forLoop blobSize encode targetBytes).
#[local] Abbreviation distance := (distance blobSize targetBytes).
#[local] Abbreviation next s b :=
  (adjust blobSize targetBytes (keepBest blobSize targetBytes s b) b).

(** A failed encoder call is the last call and ends the loop with its
    error. *)
Lemma forLoop_failure (n : nat) (s : Search Blob) before q e after :
  snd (forLoop n s) = before ++ (q, Rejected e) :: after ->
  after = [] /\ fst (forLoop n s) = inr e.
Proof.
  revert s before. induction n as [|n IH]; intros s before.
  { destruct before; discriminate. }
  rewrite forLoop_step. destruct (encode (quality s)) as [b | e'].
  - destruct (Qltb (distance b) tolerance).
    + cbn. destruct before as [|c [|c' before]]; discriminate.
    + specialize (IH (next s b)).
      destruct (forLoop n (next s b)) as [outcome calls]. cbn [fst snd] in *.
      destruct before as [|c before]; [discriminate|].
      intros [= _ Hcalls]. eapply IH. eassumption.
  - cbn. destruct before as [|c [|c' before]]; try discriminate.
    intros [= _ <- <-]. now split.
Qed.

(** A loop that ends normally has made all its passes or has found an
    encoding within tolerance. *)
Lemma forLoop_full_run (n : nat) (s s' : Search Blob) calls :
  forLoop n s = (inl s', calls) ->
  length calls = n \/
  exists b, bestBlob s' = Some b /\ withinTolerance blobSize targetBytes b.
Proof.
  revert s calls. induction n as [|n IH]; intros s calls.
  { intros [= _ <-]. now left. }
  rewrite forLoop_step. destruct (encode (quality s)) as [b | e]; [|discriminate].
  destruct (Qltb (distance b) tolerance) eqn:E.
  - intros [= <- _]. right. exists b. split; [reflexivity|].
    now apply Qltb_lt in E.
  - specialize (IH (next s b)).
    destruct (forLoop n (next s b)) as [outcome calls']. intros [= -> <-].
    destruct (IH calls' eq_refl) as [Hlen | Hin]; [left | right; exact Hin].
    cbn. now rewrite Hlen.
Qed.

(** The three qualities in strict order. *)
#[local] Abbreviation strictly s :=
  (minQuality s < quality s /\ quality s < maxQuality s).

Lemma next_strictly (s : Search Blob) (b : Blob) :
  strictly s ->
  strictly (next s b) /\
  minQuality s <= minQuality (next s b) /\
  maxQuality (next s b) <= maxQuality s /\
  (quality s <= minQuality (next s b) \/ maxQuality (next s b) <= quality s).
Proof.
  intros [Hlo Hhi].
  destruct (keepBest_qualities blobSize targetBytes s b) as (Emin & Eq & Emax).
  unfold adjust. destruct (Qltb targetBytes (bytes blobSize b)); cbn;
    rewrite ?Emin, ?Eq, ?Emax.
  - assert (E : (minQuality s + quality s) / 2 == (minQuality s + quality s) * (1 # 2))
      by field.
    rewrite E. split; [split; lra|]. split; [lra|]. split; [lra|]. right. lra.
  - assert (E : (maxQuality s + quality s) / 2 == (maxQuality s + quality s) * (1 # 2))
      by field.
    rewrite E. split; [split; lra|]. split; [lra|]. split; [lra|]. left. lra.
Qed.

(** Every quality tried lies strictly inside the interval at hand, and no
    quality is tried twice. *)
Lemma forLoop_fresh (n : nat) (s : Search Blob) :
  strictly s ->
  Forall (fun call => minQuality s < fst call /\ fst call < maxQuality s)
         (snd (forLoop n s)) /\
  ForallOrdPairs (fun a b => ~ fst a == fst b) (snd (forLoop n s)).
Proof.
  revert s. induction n as [|n IH]; intros s Hs.
  { cbn. split; constructor. }
  rewrite forLoop_step. destruct (encode (quality s)) as [b | e].
  - destruct (Qltb (distance b) tolerance).
    + cbn. split; repeat constructor; apply Hs.
    + destruct (next_strictly s b Hs) as (Hs' & Hmin & Hmax & Hout).
      destruct (IH (next s b) Hs') as [Hin Hpairs].
      destruct (forLoop n (next s b)) as [outcome calls]. cbn [fst snd] in *.
      split.
      * constructor; [exact Hs|].
        eapply Forall_impl; [|exact Hin]. cbn. intros c [H1 H2]. split; lra.
      * constructor; [|exact Hpairs].
        eapply Forall_impl; [|exact Hin]. cbn. intros c [H1 H2] Heq.
        destruct Hout; lra.
  - cbn. split; repeat constructor; apply Hs.
Qed.

End Loop.

Section Service.
Context {Blob : Type}.
Variable blobSize : Blob -> N.
Variable platform : Platform Blob.

#[local] Abbreviation compressImage := (compressImage blobSize platform).

Lemma initialSearch_strictly :
  minQuality (@initialSearch Blob) < quality (@initialSearch Blob) /\
  quality (@initialSearch Blob) < maxQuality (@initialSearch Blob).
Proof. cbn. split; lra. Qed.

(** X17: [compressImage] never encodes at the same quality twice. *)
Theorem compressImage_distinct_qualities (url : string) (kb : option Q) :
  ForallOrdPairs (fun a b => ~ fst a == fst b) (snd (compressImage url kb)).
Proof.
  unfold ImageProcessing.compressImage.
  destruct (compressImageWithin_calls blobSize platform 8 url kb) as [-> | [img ->]].
  - constructor.
  - apply forLoop_fresh, initialSearch_strictly.
Qed.

(** X18: a result that is not within tolerance is returned only after all
    8 attempts. *)
Theorem compressImage_gives_up_after_eight (url : string) (kb : option Q) r :
  fst (compressImage url kb) = Resolved r ->
  ~ withinTolerance blobSize (orTen kb * 1024) (blob r) ->
  length (snd (compressImage url kb)) = 8%nat.
Proof.
  unfold ImageProcessing.compressImage, ImageProcessing.compressImageWithin.
  destruct (loadImage platform url) as [img | e]; [|discriminate].
  destruct (context2d platform); [|discriminate]. cbn [negb].
  destruct (ImageProcessing.forLoop _ _ _ _ _) as [[s | e] calls] eqn:Hloop;
    [|discriminate].
  cbn [fst snd]. intros Hr Hout.
  destruct (forLoop_full_run _ _ _ _ _ _ _ Hloop) as [Hlen | (b & Hb & Hin)];
    [exact Hlen|].
  exfalso. apply Hout. unfold returnBest in Hr. rewrite Hb in Hr.
  destruct (blobToDataUrl platform b); [|discriminate].
  cbn in Hr. injection Hr as <-. exact Hin.
Qed.

(** X19: when an encoder call fails, it is the last call and
    [compressImage] rejects with its error; the encodings made before it are
    dropped. *)
Theorem compressImage_encoder_failure (url : string) (kb : option Q)
    before q e after :
  snd (compressImage url kb) = before ++ (q, Rejected e) :: after ->
  after = [] /\ fst (compressImage url kb) = Rejected e.
Proof.
  unfold ImageProcessing.compressImage, ImageProcessing.compressImageWithin.
  destruct (loadImage platform url) as [img | e'].
  2:{ destruct before; discriminate. }
  destruct (context2d platform).
  2:{ destruct before; discriminate. }
  cbn [negb]. intros Hcalls.
  pose proof (forLoop_failure blobSize (canvasToBlob platform img)
                (orTen kb * 1024) 8 initialSearch before q e after) as Hfail.
  destruct (ImageProcessing.forLoop _ _ _ _ _) as [[s | e'] calls];
    cbn [fst snd] in *; destruct (Hfail Hcalls) as [-> Hout];
    [discriminate | injection Hout as ->; now split].
Qed.

End Service.

Lemma compressImage_gives_up_after_eight_witness :
  length (snd (compressImage byteCount (healthy twoSizes true) "" None)) = 8%nat.
Proof.
  apply (compressImage_gives_up_after_eight byteCount (healthy twoSizes true) "" None
           {| dataUrl := "data:image/jpeg;base64,"; blob := 12480%N;
              size := 12480%N |}).
  - vm_compute. reflexivity.
  - vm_compute. discriminate.
Defined.

Lemma compressImage_encoder_failure_witness :
  fst (compressImage byteCount flaky "" None) =
    Rejected (Error "Failed to create blob").
Proof.
  apply (compressImage_encoder_failure byteCount flaky "" None
           [(0.70, Resolved 14000%N)] (8000 # 20000)
           (Error "Failed to create blob") []).
  vm_compute. reflexivity.
Defined.

End CompressMore.

(** ** Facts about the home page *)

Module HomePageFacts.

Import JSNumber FaceDetection FaceDetectionMore HomePage NumberFacts.

(** Comparisons of byte counts. *)
Lemma Qltb_bytes (bytes : N) (k : Z) :
  Qltb (inject_Z (Z.of_N bytes)) (inject_Z k) = (Z.of_N bytes <? k)%Z.
Proof.
  destruct (Z.ltb_spec (Z.of_N bytes) k) as [H | H].
  - apply Qltb_lt. rewrite <- Zlt_Qlt. exact H.
  - apply Qltb_ge. rewrite <- Zle_Qle. exact H.
Qed.

(** [toFixed(1)] is off by at most a twentieth. *)
Lemma tenths_accuracy (v : Q) :
  inject_Z (tenths v) / 10 - (1 # 20) <= v /\
  v < inject_Z (tenths v) / 10 + (1 # 20).
Proof.
  unfold tenths.
  pose proof (Qfloor_le (v * 10 + (1 # 2))) as Hlo.
  pose proof (Qlt_floor (v * 10 + (1 # 2))) as Hhi.
  rewrite inject_Z_plus in Hhi.
  set (n := inject_Z (Qfloor (v * 10 + (1 # 2)))) in *.
  assert (E : n / 10 == n * (1 # 10)) by field.
  rewrite E. change (inject_Z 1) with 1 in Hhi. split; lra.
Qed.

Lemma tenths_lower (v : Q) (lo : Z) :
  inject_Z lo <= v * 10 + (1 # 2) -> (lo <= tenths v)%Z.
Proof.
  intros Hlo. unfold tenths.
  pose proof (Qfloor_resp_le _ _ Hlo) as H. now rewrite Qfloor_Z in H.
Qed.

Lemma tenths_upper (v : Q) (hi : Z) :
  v * 10 + (1 # 2) < inject_Z (hi + 1) -> (tenths v <= hi)%Z.
Proof.
  intros Hhi. unfold tenths.
  pose proof (Qfloor_le (v * 10 + (1 # 2))) as Hle.
  assert (H : inject_Z (Qfloor (v * 10 + (1 # 2))) < inject_Z (hi + 1)) by lra.
  rewrite <- Zlt_Qlt in H. lia.
Qed.

Lemma below_KB (bytes : N) :
  Qltb (inject_Z (Z.of_N bytes)) 1024 = (Z.of_N bytes <? 1024)%Z.
Proof. exact (Qltb_bytes bytes 1024). Qed.

Lemma below_MB (bytes : N) :
  Qltb (inject_Z (Z.of_N bytes)) (1024 * 1024) = (Z.of_N bytes <? 1048576)%Z.
Proof. exact (Qltb_bytes bytes 1048576). Qed.

(** X21: [formatFileSize] prints a count below 1024 as it is, in B; from
    1024 up to 1048575 it prints KB and from 1048576 up to the largest count
    that a number holds exactly (below 2^53) MB, with one decimal that is at
    most 0.05 units away from the exact quotient. *)
Theorem formatFileSize_rounds (bytes : N) :
  ((bytes < 1024)%N -> formatFileSize bytes = (digits bytes ++ " B")%string) /\
  ((1024 <= bytes < 1048576)%N ->
   exists n : Z,
     formatFileSize bytes =
       ((digits (Z.to_N (n / 10)) ++ "." ++ digits (Z.to_N (n mod 10))) ++ " KB")%string /\
     (10 <= n <= 10240)%Z /\
     inject_Z n / 10 - (1 # 20) <= inject_Z (Z.of_N bytes) / 1024 /\
     inject_Z (Z.of_N bytes) / 1024 < inject_Z n / 10 + (1 # 20)) /\
  ((1048576 <= bytes < 9007199254740992)%N ->
   exists n : Z,
     formatFileSize bytes =
       ((digits (Z.to_N (n / 10)) ++ "." ++ digits (Z.to_N (n mod 10))) ++ " MB")%string /\
     (10 <= n)%Z /\
     inject_Z n / 10 - (1 # 20) <= inject_Z (Z.of_N bytes) / (1024 * 1024) /\
     inject_Z (Z.of_N bytes) / (1024 * 1024) < inject_Z n / 10 + (1 # 20)).
Proof.
  unfold formatFileSize. cbv zeta. rewrite below_KB, below_MB.
  split; [|split]; intros H.
  - assert (E : (Z.of_N bytes <? 1024)%Z = true) by (apply Z.ltb_lt; lia).
    now rewrite E.
  - assert (E1 : (Z.of_N bytes <? 1024)%Z = false) by (apply Z.ltb_ge; lia).
    assert (E2 : (Z.of_N bytes <? 1048576)%Z = true) by (apply Z.ltb_lt; lia).
    rewrite E1, E2. unfold toFixed1.
    set (v := inject_Z (Z.of_N bytes) / 1024).
    exists (tenths v). split; [reflexivity|].
    assert (Hv : 1 <= v /\ v < 1024).
    { unfold v. split.
      - apply Qle_shift_div_l; [reflexivity|]. rewrite Qmult_1_l.
        change 1024 with (inject_Z 1024). rewrite <- Zle_Qle. lia.
      - apply Qlt_shift_div_r; [reflexivity|].
        change (1024 * 1024) with (inject_Z 1048576). rewrite <- Zlt_Qlt. lia. }
    split; [|apply tenths_accuracy]. split.
    + apply tenths_lower. change (inject_Z 10) with 10. lra.
    + apply tenths_upper. change (inject_Z (10240 + 1)) with 10241. lra.
  - assert (E1 : (Z.of_N bytes <? 1024)%Z = false) by (apply Z.ltb_ge; lia).
    assert (E2 : (Z.of_N bytes <? 1048576)%Z = false) by (apply Z.ltb_ge; lia).
    rewrite E1, E2. unfold toFixed1.
    set (v := inject_Z (Z.of_N bytes) / (1024 * 1024)).
    exists (tenths v). split; [reflexivity|].
    assert (Hv : 1 <= v).
    { unfold v. apply Qle_shift_div_l; [reflexivity|]. rewrite Qmult_1_l.
      change (1024 * 1024) with (inject_Z 1048576). rewrite <- Zle_Qle. lia. }
    split; [|apply tenths_accuracy].
    apply tenths_lower. change (inject_Z 10) with 10. lra.
Qed.

Lemma formatFileSize_rounds_witness :
  formatFileSize 11000 = "10.7 KB"%string.
Proof.
  destruct (proj1 (proj2 (formatFileSize_rounds 11000))) as (n & Hs & Hn & Hlo & Hhi).
  - lia.
  - vm_compute. reflexivity.
Defined.

(** X22: the last 51 byte counts below one mebibyte are printed as
    1024.0 KB, not as 1.0 MB: the unit is chosen before rounding. *)
Theorem formatFileSize_KB_edge (bytes : N) :
  (1048525 <= bytes < 1048576)%N ->
  formatFileSize bytes = "1024.0 KB"%string.
Proof.
  intros H. unfold formatFileSize. cbv zeta. rewrite below_KB, below_MB.
  assert (E1 : (Z.of_N bytes <? 1024)%Z = false) by (apply Z.ltb_ge; lia).
  assert (E2 : (Z.of_N bytes <? 1048576)%Z = true) by (apply Z.ltb_lt; lia).
  rewrite E1, E2. unfold toFixed1.
  set (v := inject_Z (Z.of_N bytes) / 1024).
  assert (Hv : (1048525 # 1024) <= v /\ v < 1024).
  { unfold v. split.
    - apply Qle_shift_div_l; [reflexivity|].
      assert (E : (1048525 # 1024) * 1024 == inject_Z 1048525) by reflexivity.
      rewrite E. rewrite <- Zle_Qle. lia.
    - apply Qlt_shift_div_r; [reflexivity|].
      change (1024 * 1024) with (inject_Z 1048576). rewrite <- Zlt_Qlt. lia. }
  assert (En : tenths v = 10240%Z).
  { apply Z.le_antisymm.
    - apply tenths_upper. change (inject_Z (10240 + 1)) with 10241. lra.
    - apply tenths_lower. change (inject_Z 10240) with 10240. lra. }
  rewrite En. reflexivity.
Qed.

Lemma formatFileSize_KB_edge_witness :
  formatFileSize 1048575 = "1024.0 KB"%string.
Proof. apply formatFileSize_KB_edge. lia. Defined.

Lemma min_inject (a b : Z) :
  HomePage.min (inject_Z a) (inject_Z b) = inject_Z (Z.min a b).
Proof.
  unfold HomePage.min. cases_lt (inject_Z b) (inject_Z a).
  - rewrite <- Zlt_Qlt in E. now rewrite Z.min_r by lia.
  - rewrite <- Zle_Qle in E. now rewrite Z.min_l by lia.
Qed.



(** X25: no two guidance values share a message. *)
Theorem getGuidanceMessage_injective (g1 g2 : FaceGuidance) :
  getGuidanceMessage g1 = getGuidanceMessage g2 -> g1 = g2.
Proof.
  destruct g1, g2; cbn; intros H; first [reflexivity | discriminate].
Qed.

Lemma getGuidanceMessage_injective_witness : hold_still = hold_still.
Proof. apply getGuidanceMessage_injective. reflexivity. Defined.

(** X29: the web background removal works on a square canvas over the
    shorter image side; the ellipse it clips to lies inside the canvas, and
    the image, drawn centred, covers the canvas. *)
Theorem web_mask_inside (imgWidth imgHeight : positive) :
  let m := BackgroundRemovalWeb.mask imgWidth imgHeight in
  let w := inject_Z (Zpos imgWidth) in
  let h := inject_Z (Zpos imgHeight) in
  let size := BackgroundRemovalWeb.size m in
  size = inject_Z (Z.min (Zpos imgWidth) (Zpos imgHeight)) /\
  (0 < BackgroundRemovalWeb.ellipseX m - BackgroundRemovalWeb.ellipseRadiusX m /\
   BackgroundRemovalWeb.ellipseX m + BackgroundRemovalWeb.ellipseRadiusX m < size) /\
  (0 < BackgroundRemovalWeb.ellipseY m - BackgroundRemovalWeb.ellipseRadiusY m /\
   BackgroundRemovalWeb.ellipseY m + BackgroundRemovalWeb.ellipseRadiusY m < size) /\
  (BackgroundRemovalWeb.drawX m <= 0 /\ size <= BackgroundRemovalWeb.drawX m + w) /\
  (BackgroundRemovalWeb.drawY m <= 0 /\ size <= BackgroundRemovalWeb.drawY m + h).
Proof.
  unfold BackgroundRemovalWeb.mask. cbv zeta. cbn [BackgroundRemovalWeb.size
    BackgroundRemovalWeb.ellipseX BackgroundRemovalWeb.ellipseY
    BackgroundRemovalWeb.ellipseRadiusX BackgroundRemovalWeb.ellipseRadiusY
    BackgroundRemovalWeb.drawX BackgroundRemovalWeb.drawY].
  rewrite min_inject. split; [reflexivity|].
  assert (Hpos : 0 < inject_Z (Z.min (Zpos imgWidth) (Zpos imgHeight))).
  { change 0 with (inject_Z 0). rewrite <- Zlt_Qlt. lia. }
  assert (Hw : inject_Z (Z.min (Zpos imgWidth) (Zpos imgHeight)) <= inject_Z (Zpos imgWidth))
    by (rewrite <- Zle_Qle; lia).
  assert (Hh : inject_Z (Z.min (Zpos imgWidth) (Zpos imgHeight)) <= inject_Z (Zpos imgHeight))
    by (rewrite <- Zle_Qle; lia).
  set (m := inject_Z (Z.min (Zpos imgWidth) (Zpos imgHeight))) in *.
  set (w := inject_Z (Zpos imgWidth)) in *. set (h := inject_Z (Zpos imgHeight)) in *.
  assert (E1 : m / 2 == m * (1 # 2)) by field.
  assert (E2 : (w - m) / 2 == (w - m) * (1 # 2)) by field.
  assert (E3 : (h - m) / 2 == (h - m) * (1 # 2)) by field.
  rewrite E1, E2, E3. repeat split; lra.
Qed.

End HomePageFacts.

(** ** Facts about data URLs *)

Module DataUrlFacts.

Import DataUrl.

#[local] Open Scope string_scope.

Lemma contains_app (sep : ascii) (s t : string) :
  contains sep (s ++ t) = contains sep s || contains sep t.
Proof.
  induction s as [|c s IH]; cbn; [reflexivity|].
  rewrite IH. now rewrite orb_assoc.
Qed.

(** Without a separator in the header, what follows the first separator of
    a data URL is its payload. *)
Lemma afterFirst_header (sep : ascii) (header payload : string) :
  contains sep header = false ->
  afterFirst sep (header ++ String sep payload) = Some payload.
Proof.
  induction header as [|c header IH]; cbn.
  - now rewrite Ascii.eqb_refl.
  - intros H. apply orb_false_iff in H as [Hc Hrest].
    rewrite Hc. now apply IH.
Qed.

Lemma append_nil_r (s : string) : s ++ "" = s.
Proof. induction s as [|c s IH]; cbn; congruence. Qed.

Lemma append_assoc (s t u : string) : (s ++ t) ++ u = s ++ t ++ u.
Proof. induction s as [|c s IH]; cbn; congruence. Qed.

(** A text without separator is one piece. *)
Lemma splitFrom_piece (sep : ascii) (piece s : string) :
  contains sep s = false ->
  piece ++ s <> "" ->
  splitFrom sep piece s = [piece ++ s].
Proof.
  revert piece. induction s as [|c s IH]; intros piece; cbn.
  - intros _. rewrite append_nil_r. destruct piece; [congruence|reflexivity].
  - intros H Hne. apply orb_false_iff in H as [Hc Hrest]. rewrite Hc.
    rewrite IH; [|exact Hrest|].
    + now rewrite append_assoc.
    + rewrite append_assoc. cbn. destruct piece; discriminate.
Qed.

Lemma splitFrom_header (sep : ascii) (piece header payload : string) :
  contains sep header = false ->
  contains sep payload = false ->
  payload <> "" ->
  last (splitFrom sep piece (header ++ String sep payload)) "" = payload.
Proof.
  intros Hh Hp Hne. revert piece Hh.
  induction header as [|c header IH]; intros piece; cbn.
  - intros _. rewrite Ascii.eqb_refl.
    rewrite (splitFrom_piece sep "" payload Hp) by (cbn; exact Hne).
    cbn. destruct piece; reflexivity.
  - intros H. apply orb_false_iff in H as [Hc Hrest]. rewrite Hc.
    now apply IH.
Qed.

(** X27: for a data URL whose header has no comma and whose payload is not
    empty and has no comma, as base64 text has none, the iOS and the Android
    plugins decode the same text, the payload. *)
Theorem data_url_payload_agrees (header payload : string) :
  contains "," header = false ->
  contains "," payload = false ->
  payload <> "" ->
  androidBase64 (header ++ "," ++ payload) = payload /\
  iosBase64 (header ++ "," ++ payload) = payload.
Proof.
  intros Hh Hp Hne.
  assert (Hc : contains "," (header ++ "," ++ payload) = true).
  { rewrite contains_app. cbn. now rewrite orb_true_r. }
  unfold androidBase64, iosBase64, substringAfter, split. rewrite Hc.
  change (header ++ "," ++ payload) with (header ++ String "," payload).
  rewrite (afterFirst_header _ _ _ Hh).
  split; [reflexivity|]. now apply splitFrom_header.
Qed.

Lemma data_url_payload_agrees_witness :
  androidBase64 (toDataUrl "iVBORw0KGgo=") = "iVBORw0KGgo=" /\
  iosBase64 (toDataUrl "iVBORw0KGgo=") = "iVBORw0KGgo=".
Proof.
  apply (data_url_payload_agrees "data:image/png;base64" "iVBORw0KGgo=").
  - reflexivity.
  - reflexivity.
  - discriminate.
Defined.

(** X28: on Android, decoding strips exactly what encoding has put in
    front: the text decoded from [encodeToDataUrl]'s data URL is the base64
    text, whatever it is. *)
Theorem android_data_url_round_trip (base64 : string) :
  androidBase64 (toDataUrl base64) = base64.
Proof.
  unfold androidBase64, toDataUrl, substringAfter.
  assert (Hc : contains "," ("data:image/png;base64," ++ base64) = true).
  { rewrite contains_app. reflexivity. }
  rewrite Hc.
  change ("data:image/png;base64," ++ base64)
    with ("data:image/png;base64" ++ String "," base64).
  now rewrite afterFirst_header.
Qed.

End DataUrlFacts.
